(** * build_calendar: event extraction and calendar building

    A shallow embedding of [build_calendar-old.py]: the identifier
    extractor, the event-page parser, the record filter and the calendar
    builder, with the properties the design document states about them. *)

From Stdlib Require Import ZArith String Ascii.
From stdpp Require Import gmap list pretty.

Open Scope Z_scope.
Open Scope nat_scope.
Open Scope list_scope.

(** ** Text

    A Python [str] is a sequence of Unicode code points. *)

Definition char : Type := N.
Definition str : Type := list char.

(** A literal of the source, as code points. *)
Definition codes (s : string) : str :=
  (λ a, N_of_ascii a) <$> list_ascii_of_string s.

Definition ch (a : ascii) : char := N_of_ascii a.

Definition orelse {A} (a b : option A) : option A :=
  match a with Some x => Some x | None => b end.

(** Truth value of a string: only the empty string is false. *)
Definition nonempty (s : str) : bool :=
  match s with [] => false | _ :: _ => true end.

(** Truth value of [d.get(key)] for an optional string. *)
Definition truthy (o : option str) : bool :=
  match o with Some s => nonempty s | None => false end.

(** [a or b] on optional strings. *)
Definition str_or (o : option str) (d : str) : str :=
  match o with
  | Some s => if nonempty s then s else d
  | None => d
  end.

(** The tables of the Unicode database the code reaches through [re] and
    [str.lower]: the class [\d] of a text pattern (every decimal digit, not
    only ASCII ones) and the lower-casing of a text (which may change its
    length). *)
Class Unicode := {
  isdigit : char → bool;
  str_lower : str → str;
}.

(** [needle in hay]. *)
Fixpoint is_prefix (p s : str) : bool :=
  match p, s with
  | [], _ => true
  | c :: p', d :: s' => if decide (c = d) then is_prefix p' s' else false
  | _ :: _, [] => false
  end.

Fixpoint contains (needle hay : str) : bool :=
  match hay with
  | [] => is_prefix needle []
  | _ :: hay' => is_prefix needle hay || contains needle hay'
  end.

(** ** Regular expressions

    A pattern is embedded as its matcher at the front of a text: the length
    of the match and the text of group 1.  Both patterns of the program match
    at least one character. *)

Definition matcher : Type := str → option (nat * str).

(** [re.finditer]: leftmost matches, none overlapping; after a match the
    scan resumes where the match ended.  [skip] counts the characters of the
    last match still to pass. *)
Fixpoint finditer_from (m : matcher) (skip : nat) (s : str) : list str :=
  match s with
  | [] => []
  | _ :: s' =>
      match skip with
      | S k => finditer_from m k s'
      | O =>
          match m s with
          | Some (n, g) => g :: finditer_from m (pred n) s'
          | None => finditer_from m 0 s'
          end
      end
  end.

Definition finditer (m : matcher) (s : str) : list str := finditer_from m 0 s.

Section Patterns.
Context {uni : Unicode}.

(** A literal character. *)
Definition lit (c : char) (s : str) : option str :=
  match s with
  | d :: s' => if decide (d = c) then Some s' else None
  | [] => None
  end.

(** A literal text. *)
Fixpoint lits (p : str) (s : str) : option str :=
  match p with
  | [] => Some s
  | c :: p' => s' ← lit c s; lits p' s'
  end.

(** [\d{k}]. *)
Fixpoint digits (k : nat) (s : str) : option str :=
  match k with
  | O => Some s
  | S k' =>
      match s with
      | c :: s' => if isdigit c then digits k' s' else None
      | [] => None
      end
  end.

(** The greedy run [\d*] at the front of a text. *)
Fixpoint digit_run (s : str) : str :=
  match s with
  | c :: s' => if isdigit c then c :: digit_run s' else []
  | [] => []
  end.

(** [/events/(\d+)]: group 1 is the run of digits. *)
Definition events_pattern : matcher := λ s,
  r ← lits (codes "/events/") s;
  let g := digit_run r in
  if nonempty g then Some (8 + length g, g) else None.

(** [[+-]\d{2}:?\d{2}]: the colon is tried first, then its absence. *)
Definition offset_pattern (s : str) : option str :=
  r ← orelse (lit (ch "+") s) (lit (ch "-") s);
  r ← digits 2 r;
  orelse (lit (ch ":") r ≫= digits 2) (digits 2 r).

(** [(\d{4}-\d{2}-\d{2}T\d{2}:\d{2}:\d{2}([+-]\d{2}:?\d{2}|Z)?)]: group 1 is
    the whole match; the optional suffix is taken when it matches. *)
Definition iso_pattern : matcher := λ s,
  r ← digits 4 s; r ← lit (ch "-") r;
  r ← digits 2 r; r ← lit (ch "-") r;
  r ← digits 2 r; r ← lit (ch "T") r;
  r ← digits 2 r; r ← lit (ch ":") r;
  r ← digits 2 r; r ← lit (ch ":") r;
  r ← digits 2 r;
  let r' := default r (orelse (offset_pattern r) (lit (ch "Z") r)) in
  let n := length s - length r' in
  Some (n, take n s).
End Patterns.

(** ** Identifier extraction *)

(** [unique]: the generator yields an element when it is not in [seen], and
    adds it. *)
Fixpoint unique_from `{Countable A} (seen : gset A) (seq : list A) : list A :=
  match seq with
  | [] => []
  | x :: seq' =>
      if decide (x ∈ seen) then unique_from seen seq'
      else x :: unique_from ({[x]} ∪ seen) seq'
  end.

Definition unique `{Countable A} (seq : list A) : list A := unique_from ∅ seq.

Definition extract_event_ids {uni : Unicode} (html : str) : list str :=
  let ids := finditer events_pattern html in
  unique ids.

(** The elements of a sequence standing at the position of their first
    occurrence, in the order of the sequence. *)
Definition first_occurrences `{EqDecision A} (l : list A) : list A :=
  omap id (imap (λ j x, if decide (x ∈ take j l) then None else Some x) l).

(** ASCII instance of the tables, for texts of ASCII characters. *)
Definition ascii_isdigit (c : char) : bool := (48 <=? c)%N && (c <=? 57)%N.
Definition ascii_lower_char (c : char) : char :=
  if (65 <=? c)%N && (c <=? 90)%N then (c + 32)%N else c.
Definition ascii_unicode : Unicode :=
  {| isdigit := ascii_isdigit; str_lower := fmap ascii_lower_char |}.

(** ** Timestamps

    A [datetime]: the wall-clock fields and an optional [tzinfo].  A [tzinfo]
    is kept as the zone it names, if any, and the offset from UTC, in
    seconds, it gives the timestamp it is attached to. *)

Record tzinfo_t := {
  tz_zone : option str;
  tz_utcoffset : Z;
}.

Record datetime := {
  year : Z; month : Z; day : Z;
  hour : Z; minute : Z; second : Z; microsecond : Z;
  tzinfo : option tzinfo_t;
}.

Global Instance tzinfo_eq_dec : EqDecision tzinfo_t.
Proof. solve_decision. Defined.
Global Instance datetime_eq_dec : EqDecision datetime.
Proof. solve_decision. Defined.

Definition utcoffset (d : datetime) : option Z := tz_utcoffset <$> tzinfo d.

(** [dt.replace(tzinfo=tz)]. *)
Definition replace_tzinfo (tz : option tzinfo_t) (d : datetime) : datetime :=
  {| year := year d; month := month d; day := day d;
     hour := hour d; minute := minute d; second := second d;
     microsecond := microsecond d; tzinfo := tz |}.

(** The wall-clock reading of a timestamp. *)
Definition wall_clock (d : datetime) : list Z :=
  [year d; month d; day d; hour d; minute d; second d; microsecond d].

(** Comparison of tuples of integers. *)
Fixpoint tuple_cmp (a b : list Z) : comparison :=
  match a, b with
  | [], [] => Eq
  | [], _ :: _ => Lt
  | _ :: _, [] => Gt
  | x :: a', y :: b' =>
      match (x ?= y)%Z with Eq => tuple_cmp a' b' | c => c end
  end.

Definition is_leap (y : Z) : bool :=
  ((y mod 4 =? 0) && (negb (y mod 100 =? 0) || (y mod 400 =? 0)))%Z.

Definition days_before_year (y : Z) : Z :=
  let y := (y - 1)%Z in (y * 365 + y / 4 - y / 100 + y / 400)%Z.

Definition days_before_month (y m : Z) : Z :=
  (nth (Z.to_nat m) [-1; 0; 31; 59; 90; 120; 151; 181; 212; 243; 273; 304; 334] 0
   + (if (2 <? m) && is_leap y then 1 else 0))%Z.

Definition toordinal (d : datetime) : Z :=
  (days_before_year (year d) + days_before_month (year d) (month d) + day d)%Z.

(** Microseconds from the origin of the calendar to the instant a timestamp
    with offset [off] names. *)
Definition instant (d : datetime) (off : Z) : Z :=
  ((toordinal d * 86400 + hour d * 3600 + minute d * 60 + second d - off)
   * 1000000 + microsecond d)%Z.

(** [dt.utcoffset()]: nothing for a timestamp without [tzinfo], else the
    offset of the [tzinfo], which must be strictly within a day: another
    offset raises ([None], a [ValueError]). *)
Definition checked_utcoffset (d : datetime) : option (option Z) :=
  match tzinfo d with
  | None => Some None
  | Some tz =>
      if ((-86400 <? tz_utcoffset tz) && (tz_utcoffset tz <? 86400))%Z
      then Some (Some (tz_utcoffset tz))
      else None
  end.

(** [datetime._cmp].  Timestamps that share their [tzinfo] (a [tzinfo] is
    kept by value here: the same zone and offset is the same [tzinfo]), or
    have none, compare by their wall clock.  Otherwise the offsets are read:
    timestamps with the same offset compare by their wall clock, two with
    different offsets by their instant, and one with and one without an
    offset do not compare ([None]: a [TypeError]). *)
Definition dt_cmp (a b : datetime) : option comparison :=
  if decide (tzinfo a = tzinfo b)
  then Some (tuple_cmp (wall_clock a) (wall_clock b))
  else
    myoff ← checked_utcoffset a;
    otoff ← checked_utcoffset b;
    if decide (myoff = otoff)
    then Some (tuple_cmp (wall_clock a) (wall_clock b))
    else
      match myoff, otoff with
      | Some x, Some y => Some (instant a x ?= instant b y)%Z
      | _, _ => None
      end.

(** [a >= b]. *)
Definition dt_ge (a b : datetime) : option bool :=
  (λ c, match c with Lt => false | _ => true end) <$> dt_cmp a b.

(** The date libraries: [dateutil.parser.parse] (with its [fuzzy] flag;
    [None] when it raises) and the offset the time-zone database gives a
    named zone at a wall-clock reading. *)
Class DateLibs := {
  dp_parse : bool → str → option datetime;
  zone_utcoffset : str → datetime → Z;
}.

(** [pytz.timezone(zone).localize(dt)], which the program calls on
    timestamps without [tzinfo] only: the same wall clock, with the
    [tzinfo] of the zone at that reading. *)
Definition localize {dates : DateLibs} (zone : str) (dt : datetime) : datetime :=
  replace_tzinfo
    (Some {| tz_zone := Some zone; tz_utcoffset := zone_utcoffset zone dt |}) dt.

(** ** Configuration *)

Definition PAGE_SLUG : str := codes "StreamwoodBiking".
Definition BASE : str := codes "https://m.facebook.com/".
Definition EVENTS_URL : str := BASE ++ PAGE_SLUG ++ codes "/events/".
Definition DEFAULT_TZ : str := codes "America/Chicago".

(** ** The parsed document

    What the parser asks of a [BeautifulSoup] document: its [meta] tags, its
    [script] tags and its [time] and [abbr] tags, each in document order, and,
    for a label word, whether a text node matches it as a whole word and, if
    one does, the stripped text of the element that follows the parent of the
    first such node ([None] when nothing follows). *)

Record MetaTag := {
  meta_property : option str;
  meta_content : option str;
}.

Record ScriptTag := {
  script_string : option str;
  script_text : str;
}.

Record TimeTag := {
  attr_datetime : option str;
  visible_text : str;
}.

Record Soup := {
  metas : list MetaTag;
  scripts : list ScriptTag;
  time_tags : list TimeTag;
  find_label : str → option (option str);
}.

(** The HTML parser. *)
Class Html := {
  BeautifulSoup : str → Soup;
}.

(** ** Event records *)

Record EventRecord := {
  title : str;
  description : str;
  url : option str;
  start : option datetime;
  end_ : option datetime;
  location : option str;
}.

(** [details["url"] = u]. *)
Definition set_url (u : str) (r : EventRecord) : EventRecord :=
  {| title := title r; description := description r; url := Some u;
     start := start r; end_ := end_ r; location := location r |}.

(** ** The event-page parser *)

Section Parser.
Context {uni : Unicode} {dates : DateLibs}.

Definition try_og_meta (soup : Soup) (prop : str) : option str :=
  match list_find (λ tag, meta_property tag = Some prop) (metas soup) with
  | Some (_, tag) => meta_content tag
  | None => None
  end.

(** [script.string or script.text or ""]. *)
Definition script_txt (script : ScriptTag) : str :=
  str_or (script_string script) (script_text script).

(** The test a script block passes before it is scanned. *)
Definition mentions_event (txt : str) : bool :=
  contains (codes "event") (str_lower txt)
  && (contains (codes "start") (str_lower txt)
      || contains (codes "end") (str_lower txt)).

(** The body of the scan for one candidate, on the pair
    [(start_dt, end_dt)].  A candidate that does not parse, or does not
    compare with [start_dt], raises inside [try] and changes nothing. *)
Definition scan_candidate (st : option datetime * option datetime) (iso : str)
  : option datetime * option datetime :=
  match dp_parse false iso with
  | None => st
  | Some dt =>
      match st with
      | (None, end_dt) => (Some dt, end_dt)
      | (Some start_dt, None) =>
          match dt_ge dt start_dt with
          | Some true => (Some start_dt, Some dt)
          | _ => st
          end
      | (Some _, Some _) => st
      end
  end.

Definition scan_script (st : option datetime * option datetime)
    (script : ScriptTag) : option datetime * option datetime :=
  let txt := script_txt script in
  if mentions_event txt
  then foldl scan_candidate st (finditer iso_pattern txt)
  else st.

Definition scan_scripts (soup : Soup) : option datetime * option datetime :=
  foldl scan_script (None, None) (scripts soup).

(** The candidates the two loops of the scan meet, in order: the matches
    of the timestamp pattern in each script block that passes the test. *)
Definition script_candidates (blocks : list ScriptTag) : list str :=
  script ← blocks;
  if mentions_event (script_txt script)
  then finditer iso_pattern (script_txt script)
  else [].

(** What the scan keeps of its pair: an end only with a start it was
    found [>=]. *)
Definition scan_inv (st : option datetime * option datetime) : Prop :=
  ∀ e, st.2 = Some e → ∃ s, st.1 = Some s ∧ dt_ge e s = Some true.

(** A candidate that cannot become [end_dt] after [start_dt]: it does not
    parse, or its value is not found [>= start_dt]. *)
Definition not_accepted (start_dt : datetime) (iso : str) : Prop :=
  ∀ dt, dp_parse false iso = Some dt → dt_ge dt start_dt ≠ Some true.

(** [p.get("datetime") or p.get_text(" ", strip=True)]. *)
Definition time_source (p : TimeTag) : str :=
  str_or (attr_datetime p) (visible_text p).

(** The loop over the [time] and [abbr] tags: the first that parses ends
    it. *)
Fixpoint time_fallback (possible : list TimeTag) : option datetime :=
  match possible with
  | [] => None
  | p :: rest =>
      match dp_parse true (time_source p) with
      | Some dt => Some dt
      | None => time_fallback rest
      end
  end.

Definition loc_labels : list str :=
  [codes "Location"; codes "Place"; codes "Venue"; codes "Where"].

Fixpoint location_scan (soup : Soup) (labels : list str)
    (location : option str) : option str :=
  match labels with
  | [] => location
  | lbl :: rest =>
      match find_label soup lbl with
      | Some (Some t) =>
          if nonempty t then Some t else location_scan soup rest (Some t)
      | _ => location_scan soup rest location
      end
  end.

(** [parse_event_page] after the document is built. *)
Definition parse_soup (soup : Soup) : EventRecord :=
  let title := try_og_meta soup (codes "og:title") in
  let desc := try_og_meta soup (codes "og:description") in
  let url := try_og_meta soup (codes "og:url") in
  let '(start_dt, end_dt) := scan_scripts soup in
  let start_dt :=
    match start_dt with
    | Some dt => Some dt
    | None => time_fallback (time_tags soup)
    end in
  let location := location_scan soup loc_labels None in
  {| title := str_or title (codes "Untitled Event");
     description := str_or desc [];
     url := url;
     start := start_dt;
     end_ := end_dt;
     location := location |}.

Definition parse_event_page {parser : Html} (html : str) : EventRecord :=
  parse_soup (BeautifulSoup html).
End Parser.

(** ** The calendar builder *)

(** An event of the calendar. *)
Record Event := {
  name : str;
  begin : option datetime;
  ev_end : option datetime;
  ev_url : option str;
  ev_description : option str;
  ev_location : option str;
  uid : str;
}.

(** [s if s else None] for a field copied only when it is set. *)
Definition when_set (o : option str) : option str :=
  if truthy o then o else None.

Section Builder.
Context {dates : DateLibs}.

(** [tz.localize(dt)] when [dt.tzinfo is None]. *)
Definition ensure_aware (dt : datetime) : datetime :=
  match tzinfo dt with
  | None => localize DEFAULT_TZ dt
  | Some _ => dt
  end.

(** The fallback identifier, from the clock reading [now] in seconds. *)
Definition time_uid (now : Z) : str :=
  PAGE_SLUG ++ codes "-" ++ codes (pretty now).

(** [ev.end = dt2] after [ev.begin = dt]: the setter of the calendar
    library compares the end with the begin and raises [ValueError] when
    the end is before it; a comparison that raises ends the build as
    well. *)
Definition end_refused (begin end_time : option datetime) : bool :=
  match begin, end_time with
  | Some b, Some e =>
      match dt_cmp e b with
      | Some Lt | None => true
      | Some _ => false
      end
  | _, _ => false
  end.

(** The body of the loop of [build_ics] for one record: the event it
    adds to the calendar, or [None] when setting the end raises. *)
Definition build_event (now : Z) (e : EventRecord) : option Event :=
  let begin_time := ensure_aware <$> start e in
  let end_time := ensure_aware <$> end_ e in
  if end_refused begin_time end_time then None
  else
    Some {| name := title e;
            begin := begin_time;
            ev_end := end_time;
            ev_url := when_set (url e);
            ev_description := when_set (Some (description e));
            ev_location := when_set (location e);
            uid := str_or (url e) (time_uid now)
                   ++ codes "@streamwood-biking" |}.

(** The loop of [build_ics] from record [i] on. *)
Fixpoint build_ics_from (clock : nat → Z) (i : nat)
    (events : list EventRecord) : option (list Event) :=
  match events with
  | [] => Some []
  | e :: rest =>
      ev ← build_event (clock i) e;
      evs ← build_ics_from clock (S i) rest;
      Some (ev :: evs)
  end.

(** [build_ics]: the events the loop adds to the calendar, in the order
    it adds them, or [None] when the loop raises; [clock i] is what
    [time.time()] reads while record [i] is built.  The calendar keeps
    the events as a set. *)
Definition build_ics (clock : nat → Z) (events : list EventRecord)
  : option (list Event) :=
  build_ics_from clock 0 events.
End Builder.

(** ** The pipeline *)

(** The browser page: navigation may time out ([None]), which ends the
    run. *)
Class Browser := {
  Page : Type;
  goto : str → Page → option Page;
  mouse_wheel : Page → Page;
  content : Page → str;
}.

Section Main.
Context {uni : Unicode} {dates : DateLibs} {parser : Html} {browser : Browser}.

(** [urljoin(BASE, f"events/{eid}")]: [BASE] ends its path with a slash
    and the reference is a relative path, so the reference is appended. *)
Definition event_url (eid : str) : str := BASE ++ codes "events/" ++ eid.

(** [list(unique(event_ids))[:20]]. *)
Definition cap_event_ids (event_ids : list str) : list str :=
  take 20 (unique event_ids).

(** [[r for r in results if r.get("start")]]. *)
Definition with_start (results : list EventRecord) : list EventRecord :=
  filter (λ r, is_Some (start r)) results.

(** One round of the loop over the identifiers: the record appended to
    [results]. *)
Definition visit (page : Page) (eid : str) : option (Page * EventRecord) :=
  let u := event_url eid in
  page ← goto u page;
  let details := parse_event_page (content page) in
  let details := if truthy (url details) then details else set_url u details in
  Some (page, details).

Fixpoint main_loop (page : Page) (event_ids : list str)
    (results : list EventRecord) : option (Page * list EventRecord) :=
  match event_ids with
  | [] => Some (page, results)
  | eid :: rest =>
      '(page, details) ← visit page eid;
      main_loop page rest (results ++ [details])
  end.

(** The records of a run, before the filter. *)
Definition collect (page : Page) : option (list EventRecord) :=
  page ← goto EVENTS_URL page;
  let page := mouse_wheel (mouse_wheel (mouse_wheel page)) in
  let html := content page in
  let event_ids := extract_event_ids html in
  let event_ids := cap_event_ids event_ids in
  '(_, results) ← main_loop page event_ids [];
  Some results.

(** [main]: the events added to the calendar that is written; [None]
    when a navigation times out or the builder raises. *)
Definition main (clock : nat → Z) (page : Page) : option (list Event) :=
  results ← collect page;
  let results := with_start results in
  build_ics clock results.
End Main.

(** ** A reference environment

    Instances of the libraries on the inputs the examples use: ASCII text,
    timestamps written in full in the ISO form, the zone rule of the
    default zone, and pages given with their documents. *)

(** [k] ASCII digits as a number. *)
Fixpoint read_number (k : nat) (acc : Z) (s : str) : option (Z * str) :=
  match k with
  | O => Some (acc, s)
  | S k' =>
      match s with
      | c :: s' =>
          if ascii_isdigit c
          then read_number k' (acc * 10 + (Z.of_N c - 48))%Z s'
          else None
      | [] => None
      end
  end.

Definition days_in_month (y m : Z) : Z :=
  if (m =? 2)%Z then (if is_leap y then 29 else 28)%Z
  else if ((m =? 4) || (m =? 6) || (m =? 9) || (m =? 11))%Z then 30%Z
  else 31%Z.

Definition UTC : tzinfo_t := {| tz_zone := Some (codes "UTC"); tz_utcoffset := 0 |}.

(** The end of a timestamp: nothing, [Z], or a signed offset [hh:mm] or
    [hhmm]. *)
Definition read_zone (s : str) : option (option tzinfo_t) :=
  match s with
  | [] => Some None
  | c :: r =>
      if decide (c = ch "Z") then (if nonempty r then None else Some (Some UTC))
      else
        sign ← (if decide (c = ch "+") then Some 1%Z
                else if decide (c = ch "-") then Some (-1)%Z else None);
        '(hh, r) ← read_number 2 0 r;
        '(mm, r) ← read_number 2 0 (default r (lit (ch ":") r));
        if nonempty r then None
        else if ((hh <? 24) && (mm <? 60))%Z
        then
          let off := (sign * (hh * 3600 + mm * 60))%Z in
          Some (Some (if (off =? 0)%Z then UTC
                      else {| tz_zone := None; tz_utcoffset := off |}))
        else None
  end.

(** What [dateutil] reads from a text that is exactly
    [YYYY-MM-DDThh:mm:ss] with an optional zone, every field in range.
    On other texts this reader gives up, where [dateutil] may not. *)
Definition iso_parse (s : str) : option datetime :=
  '(y, r) ← read_number 4 0 s; r ← lit (ch "-") r;
  '(m, r) ← read_number 2 0 r; r ← lit (ch "-") r;
  '(d, r) ← read_number 2 0 r; r ← lit (ch "T") r;
  '(hh, r) ← read_number 2 0 r; r ← lit (ch ":") r;
  '(mm, r) ← read_number 2 0 r; r ← lit (ch ":") r;
  '(ss, r) ← read_number 2 0 r;
  tz ← read_zone r;
  if ((1 <=? y) && (1 <=? m) && (m <=? 12) && (1 <=? d)
      && (d <=? days_in_month y m) && (hh <? 24) && (mm <? 60) && (ss <? 60))%Z
  then Some {| year := y; month := m; day := d; hour := hh; minute := mm;
               second := ss; microsecond := 0; tzinfo := tz |}
  else None.

(** The first Sunday of a month on or after day [from]. *)
Definition sunday_from (y m from : Z) : Z :=
  let ord := (days_before_year y + days_before_month y m + from)%Z in
  (from + (7 - ord mod 7) mod 7)%Z.

(** Central time since 2007: daylight time from the second Sunday of March,
    03:00, to the first Sunday of November, 01:00; a reading the change
    skips or repeats is on standard time. *)
Definition central_offset (dt : datetime) : Z :=
  let y := year dt in
  let m := month dt in
  let dst :=
    if ((3 <? m) && (m <? 11))%Z then true
    else if (m =? 3)%Z then
      let d := sunday_from y 3 8 in
      ((d <? day dt) || ((day dt =? d) && (3 <=? hour dt)))%Z
    else if (m =? 11)%Z then
      let d := sunday_from y 11 1 in
      ((day dt <? d) || ((day dt =? d) && (hour dt <? 1)))%Z
    else false in
  if dst then (-18000)%Z else (-21600)%Z.

Definition iso_dates : DateLibs :=
  {| dp_parse := λ _ s, iso_parse s; zone_utcoffset := λ _ dt, central_offset dt |}.

Definition empty_soup : Soup :=
  {| metas := []; scripts := []; time_tags := []; find_label := λ _, None |}.

(** The first entry of an association list under a key. *)
Fixpoint assoc {V} (k : str) (l : list (str * V)) : option V :=
  match l with
  | [] => None
  | (k', v) :: l' => if decide (k' = k) then Some v else assoc k l'
  end.

(** A parser that knows the documents of some pages. *)
Definition known_pages (docs : list (str * Soup)) : Html :=
  {| BeautifulSoup := λ h, default empty_soup (assoc h docs) |}.

(** A browser over a fixed site: a page is the text it shows, and a
    navigation to an address the site lacks times out. *)
Definition site_browser (site : list (str * str)) : Browser :=
  {| Page := str;
     goto := λ u _, assoc u site;
     mouse_wheel := λ p, p;
     content := λ p, p |}.

(** A listing that links the events [ids], one anchor each. *)
Definition listing_of (ids : list Z) : str :=
  id ← ids; codes "<a href='/events/" ++ codes (pretty id) ++ codes "/'>ride</a>".

Definition listing_aba : str := listing_of [111; 222; 111]%Z.
Definition listing_25 : str := listing_of ((λ n, Z.of_nat n) <$> seq 101 25).

(** An event page whose only content is one script block, and its
    document. *)
Definition script_html (txt : str) : str :=
  codes "<html><head><script>" ++ txt
  ++ codes "</script></head><body></body></html>".

Definition script_soup (txt : str) : Soup :=
  {| metas := [];
     scripts := [{| script_string := Some txt; script_text := txt |}];
     time_tags := [];
     find_label := λ _, None |}.

Definition script_page (txt : str) : Html :=
  known_pages [(script_html txt, script_soup txt)].

(** A block with a start and an end. *)
Definition txt_start_end : str :=
  codes "{'event': {'start_time': '2024-05-01T10:00:00', 'end_time': '2024-05-01T12:00:00'}}".

(** A block with a date that does not exist, a start, an earlier time and
    an end. *)
Definition txt_mixed : str :=
  codes "{'event': {'created': '2024-02-30T08:00:00', 'start_time': '2024-05-01T10:00:00', 'doors': '2024-05-01T09:00:00', 'end_time': '2024-05-01T12:00:00'}}".

(** A block with a start and then only an earlier time. *)
Definition txt_earlier : str :=
  codes "{'event': {'start_time': '2024-05-01T10:00:00', 'doors': '2024-05-01T09:00:00'}}".

(** A block with a start, an earlier time and a later one. *)
Definition txt_earlier_later : str :=
  codes "{'event': {'start_time': '2024-05-01T10:00:00', 'doors': '2024-05-01T09:00:00', 'end_time': '2024-05-01T12:00:00'}}".

Definition at_2024_05_01 (h : Z) : datetime :=
  {| year := 2024; month := 5; day := 1; hour := h; minute := 0; second := 0;
     microsecond := 0; tzinfo := None |}.

(** An event page with one [time] element whose attribute is no date and
    whose text is one, and its document. *)
Definition time_html : str :=
  codes "<html><body><time datetime='TBD'>2024-05-01T10:00:00</time></body></html>".

Definition time_soup : Soup :=
  {| metas := []; scripts := [];
     time_tags := [{| attr_datetime := Some (codes "TBD");
                      visible_text := codes "2024-05-01T10:00:00" |}];
     find_label := λ _, None |}.

Definition time_page : Html := known_pages [(time_html, time_soup)].

(** An event page with two time elements: the attribute of the first is no
    date, the second has no attribute and a date as its text. *)
Definition time_html_two : str :=
  codes "<html><body><time datetime='TBD'>soon</time><abbr>2024-05-01T10:00:00</abbr></body></html>".

Definition time_soup_two : Soup :=
  {| metas := []; scripts := [];
     time_tags := [{| attr_datetime := Some (codes "TBD");
                      visible_text := codes "soon" |};
                   {| attr_datetime := None;
                      visible_text := codes "2024-05-01T10:00:00" |}];
     find_label := λ _, None |}.

Definition time_page_two : Html := known_pages [(time_html_two, time_soup_two)].

(** Three records: the second has every field but a start. *)
Definition record_a : EventRecord :=
  {| title := codes "Morning ride"; description := []; url := None;
     start := Some (at_2024_05_01 10); end_ := None; location := None |}.
Definition record_b : EventRecord :=
  {| title := codes "Evening ride"; description := []; url := None;
     start := Some (at_2024_05_01 18);
     end_ := Some {| year := 2024; month := 5; day := 1; hour := 20;
                     minute := 0; second := 0; microsecond := 0;
                     tzinfo := Some UTC |};
     location := None |}.


(** A record whose start has no zone and whose end, later the same day,
    has one. *)
Definition record_c : EventRecord :=
  {| title := codes "Noon ride"; description := codes "Meet at the lot";
     url := None;
     start := Some (at_2024_05_01 10);
     end_ := Some {| year := 2024; month := 5; day := 1; hour := 20;
                     minute := 0; second := 0; microsecond := 0;
                     tzinfo := Some UTC |};
     location := Some (codes "City Hall") |}.

(** A site with a listing of three events, the first linked twice: the page
    of the first states its address and its times, the page of the second
    its times only, the page of the third nothing. *)
Definition page_111 : str :=
  codes "<html><head><meta property='og:url' content='https://www.facebook.com/events/111/'><script>"
  ++ txt_start_end ++ codes "</script></head><body></body></html>".

Definition soup_111 : Soup :=
  {| metas := [{| meta_property := Some (codes "og:url");
                  meta_content := Some (codes "https://www.facebook.com/events/111/") |}];
     scripts := [{| script_string := Some txt_start_end;
                    script_text := txt_start_end |}];
     time_tags := [];
     find_label := λ _, None |}.

Definition page_333 : str := codes "<html><head></head><body></body></html>".

Definition rides_site : list (str * str) :=
  [(EVENTS_URL, listing_of [111; 222; 333; 111]%Z);
   (codes "https://m.facebook.com/events/111", page_111);
   (codes "https://m.facebook.com/events/222", script_html txt_earlier);
   (codes "https://m.facebook.com/events/333", page_333)].

Definition rides_pages : Html :=
  known_pages [(page_111, soup_111);
               (script_html txt_earlier, script_soup txt_earlier);
               (page_333, empty_soup)].

(** ** Further example pages and records *)

(** A document whose first [og:title] tag has no content and whose second
    has one. *)
Definition soup_two_titles : Soup :=
  {| metas := [{| meta_property := Some (codes "og:type");
                  meta_content := Some (codes "event") |};
               {| meta_property := Some (codes "og:title");
                  meta_content := None |};
               {| meta_property := Some (codes "og:title");
                  meta_content := Some (codes "Sunday ride") |}];
     scripts := []; time_tags := []; find_label := λ _, None |}.

(** A document where [Location] is followed by an element without text,
    [Place] is absent and [Venue] is followed by [City Hall]. *)
Definition soup_venue : Soup :=
  {| metas := []; scripts := []; time_tags := [];
     find_label := λ lbl,
       if decide (lbl = codes "Location") then Some (Some [])
       else if decide (lbl = codes "Venue") then Some (Some (codes "City Hall"))
       else None |}.

(** A document where [Where] is followed by an element without text and no
    other label occurs. *)
Definition soup_where_empty : Soup :=
  {| metas := []; scripts := []; time_tags := [];
     find_label := λ lbl,
       if decide (lbl = codes "Where") then Some (Some []) else None |}.

(** A block that states the same time twice. *)
Definition txt_same_twice : str :=
  codes "{'event': {'start_time': '2024-05-01T10:00:00', 'start_timestamp': '2024-05-01T10:00:00'}}".

(** A block with a start without a zone and an end with one. *)
Definition txt_mixed_zones : str :=
  codes "{'event': {'start_time': '2024-05-01T10:00:00', 'end_time': '2024-05-01T18:00:00Z'}}".

(** The shape of a timestamp candidate: [k] digits, and the zone suffix. *)
Definition digit_field {uni : Unicode} (k : nat) (ds : str) : Prop :=
  length ds = k ∧ Forall (λ c, isdigit c = true) ds.

Definition zone_suffix {uni : Unicode} (z : str) : Prop :=
  z = [] ∨ z = [ch "Z"] ∨
  ∃ sign hh mm,
    (sign = ch "+" ∨ sign = ch "-") ∧ digit_field 2 hh ∧ digit_field 2 mm ∧
    (z = sign :: hh ++ ch ":" :: mm ∨ z = sign :: hh ++ mm).

Definition iso_shaped {uni : Unicode} (c : str) : Prop :=
  ∃ y mo d h mi se z,
    c = y ++ ch "-" :: mo ++ ch "-" :: d ++ ch "T" :: h ++ ch ":" :: mi
          ++ ch ":" :: se ++ z ∧
    digit_field 4 y ∧ digit_field 2 mo ∧ digit_field 2 d ∧
    digit_field 2 h ∧ digit_field 2 mi ∧ digit_field 2 se ∧
    zone_suffix z.

(** ** The cookie header

    [main] reads the variable [FB_COOKIE], splits its text at the
    semicolons, keeps the pieces that hold an equals sign and makes a cookie
    of each. *)

(** [str.isspace]: the white-space characters. *)
Definition isspace (c : char) : bool :=
  (((9 <=? c) && (c <=? 13)) || ((28 <=? c) && (c <=? 32))
   || (c =? 133) || (c =? 160) || (c =? 5760)
   || ((8192 <=? c) && (c <=? 8202))
   || (c =? 8232) || (c =? 8233) || (c =? 8239) || (c =? 8287)
   || (c =? 12288))%N.

Fixpoint lstrip (s : str) : str :=
  match s with
  | c :: s' => if isspace c then lstrip s' else s
  | [] => []
  end.

Fixpoint rstrip (s : str) : str :=
  match s with
  | [] => []
  | c :: s' =>
      match rstrip s' with
      | [] => if isspace c then [] else [c]
      | r => c :: r
      end
  end.

(** [s.strip()]. *)
Definition strip (s : str) : str := rstrip (lstrip s).

(** [s.split(sep)] for a separator of one character. *)
Fixpoint split (sep : char) (s : str) : list str :=
  match s with
  | [] => [[]]
  | c :: s' =>
      if decide (c = sep) then [] :: split sep s'
      else
        match split sep s' with
        | w :: ws => (c :: w) :: ws
        | [] => [[c]]
        end
  end.

(** [s.split(sep, 1)]: at the first separator only. *)
Fixpoint split1 (sep : char) (s : str) : list str :=
  match s with
  | [] => [[]]
  | c :: s' =>
      if decide (c = sep) then [[]; s']
      else
        match split1 sep s' with
        | w :: ws => (c :: w) :: ws
        | [] => [[c]]
        end
  end.

Record Cookie := {
  c_name : str;
  c_value : str;
  c_domain : str;
  c_path : str;
  c_httpOnly : bool;
  c_secure : bool;
}.

(** [os.environ.get("FB_COOKIE", "").strip()]. *)
Definition cookie_header (FB_COOKIE : option str) : str :=
  strip (default [] FB_COOKIE).

(** [[c.strip() for c in cookie_header.split(";") if "=" in c]]. *)
Definition header_pieces (header : str) : list str :=
  strip <$> filter (λ c, contains (codes "=") c = true) (split (ch ";") header).

(** The body of the loop: [name, value = kv.split("=", 1)] raises when the
    split does not give two parts. *)
Definition make_cookie (kv : str) : option Cookie :=
  match split1 (ch "=") kv with
  | [name; value] =>
      Some {| c_name := strip name; c_value := strip value;
              c_domain := codes ".facebook.com"; c_path := codes "/";
              c_httpOnly := false; c_secure := true |}
  | _ => None
  end.

Definition parse_cookies (header : str) : option (list Cookie) :=
  mapM make_cookie (header_pieces header).

(** The cookies the browser context is given: none when the header is
    empty; [None] when the loop raises. *)
Definition added_cookies (FB_COOKIE : option str) : option (list Cookie) :=
  if nonempty (cookie_header FB_COOKIE)
  then parse_cookies (cookie_header FB_COOKIE)
  else Some [].

(** A text without white space at either end. *)
Definition stripped (s : str) : Prop :=
  (∀ c, head s = Some c → isspace c = false) ∧
  (∀ c, last s = Some c → isspace c = false).

(** [sep.join(l)]. *)
Fixpoint join (sep : char) (l : list str) : str :=
  match l with
  | [] => []
  | x :: l' =>
      match l' with
      | [] => x
      | _ :: _ => x ++ sep :: join sep l'
      end
  end.

(** A piece of a cookie header as it is written: a name, an equals sign and
    a value, with white space around. *)
Record Piece := {
  pad_left : str;
  piece_name : str;
  piece_value : str;
  pad_right : str;
}.

Definition piece_text (p : Piece) : str :=
  pad_left p ++ piece_name p ++ ch "=" :: piece_value p ++ pad_right p.

Definition piece_cookie (p : Piece) : Cookie :=
  {| c_name := piece_name p; c_value := piece_value p;
     c_domain := codes ".facebook.com"; c_path := codes "/";
     c_httpOnly := false; c_secure := true |}.

Definition well_formed_piece (p : Piece) : Prop :=
  Forall (λ c, isspace c = true) (pad_left p) ∧
  Forall (λ c, isspace c = true) (pad_right p) ∧
  stripped (piece_name p) ∧ stripped (piece_value p) ∧
  (ch "=" ∉ piece_name p) ∧
  (ch ";" ∉ piece_name p) ∧ ch ";" ∉ piece_value p.

(** A header with white space around its pieces, an empty value and a
    value that holds an equals sign. *)
Definition pieces_example : list Piece :=
  [{| pad_left := codes "  "; piece_name := codes "c_user";
      piece_value := codes "1000"; pad_right := [] |};
   {| pad_left := codes " "; piece_name := codes "xs";
      piece_value := codes "12:ab=cd"; pad_right := codes " " |};
   {| pad_left := codes " "; piece_name := codes "datr";
      piece_value := []; pad_right := [] |};
   {| pad_left := []; piece_name := codes "sb";
      piece_value := codes "x y"; pad_right := [] |}].

(** ** The files of a run

    The files the run writes, as a map from paths to texts.  The
    directories, which [os.makedirs] creates when they are missing, are not
    kept. *)

(** The text of the calendar, which the calendar library makes. *)
Class CalendarText := {
  calendar_text : list Event → str;
}.

Definition ids_path : str := codes "public/event_ids.txt".
Definition urls_path : str := codes "public/event_id_urls.txt".
Definition ics_path : str := codes "public/streamwood_biking.ics".
Definition index_path : str := codes "public/index.html".

(** [open(path, "w")] and a write: the text replaces the file. *)
Definition write_file (path text : str) (fs : gmap str str) : gmap str str :=
  <[path := text]> fs.

(** [open(path, "a")] and a write: the text goes after what the file
    holds, and the file is made when it is missing. *)
Definition append_file (path text : str) (fs : gmap str str) : gmap str str :=
  <[path := default [] (fs !! path) ++ text]> fs.

(** [if os.path.exists(path): os.remove(path)]. *)
Definition remove_file (path : str) (fs : gmap str str) : gmap str str :=
  match fs !! path with
  | Some _ => delete path fs
  | None => fs
  end.

(** Each text followed by a line feed. *)
Definition lines_of (l : list str) : str := x ← l; x ++ [10%N].

(** The texts appended to a file one after the other, a line each. *)
Definition append_lines (path : str) (l : list str) (fs : gmap str str)
  : gmap str str :=
  foldl (λ fs x, append_file path (x ++ [10%N]) fs) fs l.

(** The text [create_index] writes. *)
Definition index_html : str :=
  codes "<html><body>This is test index for SB Cal<br><a href="
  ++ [34%N] ++ codes "event_id_urls.txt" ++ [34%N]
  ++ codes ">event_id_urls txt</a><br></body></html>".

Definition create_index (outfile : str) (fs : gmap str str) : gmap str str :=
  write_file outfile index_html fs.

Section Files.
Context {uni : Unicode} {dates : DateLibs} {parser : Html} {browser : Browser}
      {cal : CalendarText}.

(** [build_ics] with its file: when the loop over the records has not
  raised, the text of the calendar replaces [outfile]. *)
Definition build_ics_file (clock : nat → Z) (events : list EventRecord)
  (outfile : str) (fs : gmap str str) : gmap str str * option (list Event) :=
match build_ics clock events with
| None => (fs, None)
| Some evs => (write_file outfile (calendar_text evs) fs, Some evs)
end.

(** The loop over the identifiers with its file: the address is appended
  to the list of addresses before the page is fetched.  A navigation that
  times out ends the run with the files as they are then. *)
Fixpoint main_loop_files (page : Page) (event_ids : list str)
  (results : list EventRecord) (fs : gmap str str)
: gmap str str * option (Page * list EventRecord) :=
match event_ids with
| [] => (fs, Some (page, results))
| eid :: rest =>
    let fs := append_file urls_path (event_url eid ++ [10%N]) fs in
    match visit page eid with
    | None => (fs, None)
    | Some (page, details) =>
        main_loop_files page rest (results ++ [details]) fs
    end
end.

(** The identifiers a run works on, read from the listing as [page] shows
  it after the three turns of the wheel. *)
Definition working_set (page : Page) : list str :=
cap_event_ids (extract_event_ids
  (content (mouse_wheel (mouse_wheel (mouse_wheel page))))).

(** [main] with its files: the files after the run and, when no
  navigation timed out and the builder did not raise, the events of the
  calendar. *)
Definition main_files (clock : nat → Z) (page : Page) (fs : gmap str str)
: gmap str str * option (list Event) :=
match goto EVENTS_URL page with
| None => (fs, None)
| Some page =>
    let page := mouse_wheel (mouse_wheel (mouse_wheel page)) in
    let html := content page in
    let event_ids := extract_event_ids html in
    let event_ids := cap_event_ids event_ids in
    let fs :=
      match event_ids with
      | [] => fs
      | _ :: _ => write_file ids_path (lines_of event_ids) fs
      end in
    let fs := remove_file urls_path fs in
    match main_loop_files page event_ids [] fs with
    | (fs, None) => (fs, None)
    | (fs, Some (_, results)) =>
        let results := with_start results in
        match build_ics_file clock results ics_path fs with
        | (fs, None) => (fs, None)
        | (fs, Some evs) => (create_index index_path fs, Some evs)
        end
    end
end.
End Files.

(** A calendar text for the examples: the identifiers of the events, one
    on each line. *)
Definition uid_lines : CalendarText :=
  {| calendar_text := λ evs, lines_of (uid <$> evs) |}.


(** A site whose listing links no event. *)
Definition quiet_site : list (str * str) :=
  [(EVENTS_URL, codes "<html><body>No upcoming events</body></html>")].

(** Files left by an earlier run. *)
Definition old_files : gmap str str :=
  {[ ids_path := codes "9"; urls_path := codes "old";
     ics_path := codes "old calendar" ]}.
(** ** Patterns: what a match is *)

Section PatternFacts.
Context {uni : Unicode}.

Lemma lit_Some c s r : lit c s = Some r → s = c :: r.
Proof.
  destruct s as [|d s]; simpl; [done|].
  destruct (decide (d = c)) as [->|]; [|done]. by intros [= ->].
Qed.

Lemma lits_Some p s r : lits p s = Some r → s = p ++ r.
Proof.
  revert s. induction p as [|c p IH]; intros s; simpl.
  - by intros [= ->].
  - destruct (lit c s) as [s'|] eqn:Hc; simpl; [|done].
    intros Hr. apply lit_Some in Hc as ->. by rewrite (IH _ Hr).
Qed.

Lemma digit_run_split s :
  ∃ rest, s = digit_run s ++ rest ∧
          Forall (λ c, isdigit c = true) (digit_run s) ∧
          (∀ c, head rest = Some c → isdigit c = false).
Proof.
  induction s as [|c s (rest & Hs & Hall & Hrest)]; simpl.
  - exists []. by split_and!.
  - destruct (isdigit c) eqn:Hc.
    + exists rest. split_and!; [simpl; by f_equal|by constructor|done].
    + exists (c :: s). split_and!; [done|constructor|].
      by intros ? [= <-].
Qed.

(** A match of [/events/(\d+)] at the front of a text: the literal, then
    the longest run of digits, which is not empty. *)
Lemma events_pattern_Some s n g :
  events_pattern s = Some (n, g) →
  n = 8 + length g ∧ g ≠ [] ∧ Forall (λ c, isdigit c = true) g ∧
  ∃ rest, s = codes "/events/" ++ g ++ rest ∧
          (∀ c, head rest = Some c → isdigit c = false).
Proof.
  unfold events_pattern.
  destruct (lits (codes "/events/") s) as [r|] eqn:Hlit; simpl; [|done].
  apply lits_Some in Hlit as ->.
  destruct (digit_run_split r) as (rest & Hr & Hall & Hrest).
  destruct (digit_run r) as [|c g'] eqn:Hrun; simpl; [done|].
  intros [= <- <-]. split_and!; [done|done|done|].
  exists rest. split; [|done]. by rewrite Hr at 1.
Qed.

(** Every match [finditer] reports is a match of the pattern at some
    place of the text. *)
Lemma finditer_from_elem (m : matcher) skip s g :
  g ∈ finditer_from m skip s →
  ∃ before at_ n, s = before ++ at_ ∧ m at_ = Some (n, g).
Proof.
  revert skip. induction s as [|c s IH]; intros skip; simpl.
  - by intros ?%elem_of_nil.
  - assert (Hlater : ∀ k, g ∈ finditer_from m k s →
      ∃ before at_ n, c :: s = before ++ at_ ∧ m at_ = Some (n, g)).
    { intros k (before & at_ & n & -> & Hm)%IH.
      by exists (c :: before), at_, n. }
    destruct skip as [|k]; [|apply Hlater].
    destruct (m (c :: s)) as [[n g']|] eqn:Hm; [|apply Hlater].
    intros [->|Hin]%elem_of_cons; [|by eapply Hlater].
    by exists [], (c :: s), n.
Qed.
End PatternFacts.

Lemma elem_of_unique_from `{Countable A} (seen : gset A) (l : list A) x :
  x ∈ unique_from seen l ↔ x ∈ l ∧ x ∉ seen.
Proof.
  revert seen. induction l as [|y l IH]; intros seen; simpl.
  - rewrite elem_of_nil. tauto.
  - destruct (decide (y ∈ seen)) as [Hin|Hout].
    + rewrite IH, elem_of_cons. split; [tauto|].
      intros [[->|Hx] Hs]; [contradiction|tauto].
    + rewrite !elem_of_cons, IH, elem_of_union, elem_of_singleton.
      destruct (decide (x = y)) as [->|Hne]; tauto.
Qed.

Lemma NoDup_unique_from `{Countable A} (seen : gset A) (l : list A) :
  NoDup (unique_from seen l).
Proof.
  revert seen. induction l as [|y l IH]; intros seen; simpl.
  - constructor.
  - destruct (decide (y ∈ seen)); [apply IH|].
    constructor; [|apply IH].
    rewrite elem_of_unique_from, elem_of_union, elem_of_singleton. tauto.
Qed.

Lemma unique_from_NoDup `{Countable A} (seen : gset A) (l : list A) :
  NoDup l → (∀ x, x ∈ l → x ∉ seen) → unique_from seen l = l.
Proof.
  revert seen. induction l as [|y l IH]; intros seen Hnd Hfresh; simpl; [done|].
  inversion Hnd as [|? ? Hy Hl]; subst.
  destruct (decide (y ∈ seen)) as [Hin|_].
  - exfalso. apply (Hfresh y); [left|done].
  - f_equal. apply IH; [done|].
    intros x Hx. rewrite elem_of_union, elem_of_singleton.
    intros [->|Hs]; [done|]. apply (Hfresh x); [by right|done].
Qed.

Lemma unique_from_positions `{Countable A} (p l : list A) :
  unique_from (list_to_set p) l =
  omap id (imap (λ j x, if decide (x ∈ take (length p + j) (p ++ l))
                        then None else Some x) l).
Proof.
  revert p. induction l as [|y l IH]; intros p; [done|].
  rewrite imap_cons. cbn [unique_from omap].
  rewrite Nat.add_0_r, take_app_length.
  assert (Hnext : ∀ seen', seen' = list_to_set (p ++ [y]) →
    unique_from seen' l =
    omap id (imap ((λ j x, if decide (x ∈ take (length p + j) (p ++ y :: l))
                           then None else Some x) ∘ S) l)).
  { intros seen' ->. rewrite IH. f_equal. apply imap_ext.
    intros j x _. simpl. rewrite length_app. simpl.
    replace (length p + 1 + j) with (length p + S j) by lia.
    by rewrite <-(assoc_L (++)). }
  destruct (decide (y ∈ list_to_set p)) as [Hin|Hout];
    rewrite elem_of_list_to_set in *.
  - rewrite decide_True by done. simpl. apply Hnext.
    apply set_eq. intros x.
    rewrite list_to_set_snoc_L, elem_of_union, elem_of_singleton,
      elem_of_list_to_set.
    split; [tauto|]. intros [?| ->]; done.
  - rewrite decide_False by done. simpl. f_equal. apply Hnext.
    rewrite list_to_set_snoc_L. apply (comm_L (∪)).
Qed.

Lemma unique_first_occurrences `{Countable A} (l : list A) :
  unique l = first_occurrences l.
Proof. apply (unique_from_positions [] l). Qed.

Lemma NoDup_unique `{Countable A} (l : list A) : NoDup (unique l).
Proof. apply NoDup_unique_from. Qed.

Lemma elem_of_unique `{Countable A} (l : list A) x : x ∈ unique l ↔ x ∈ l.
Proof.
  unfold unique. rewrite elem_of_unique_from.
  split; [tauto|]. intros Hx. split; [done|]. apply not_elem_of_empty.
Qed.

Lemma unique_NoDup `{Countable A} (l : list A) : NoDup l → unique l = l.
Proof.
  intros Hnd. apply unique_from_NoDup; [done|].
  intros x _. apply not_elem_of_empty.
Qed.

Lemma length_unique `{Countable A} (l : list A) :
  length (unique l) = size (list_to_set l : gset A).
Proof.
  rewrite <-(size_list_to_set (C:=gset A) (unique l)) by apply NoDup_unique.
  f_equal. apply set_eq. intros x.
  by rewrite !elem_of_list_to_set, elem_of_unique.
Qed.

(** ** Identifier extraction: properties *)

(** C1. The extractor returns the identifiers the pattern [/events/<digits>]
    matches in the listing, each at the place of its first occurrence and
    only there; every one is a run of digits that follows [/events/] in the
    listing; for links to A, B, A in that order it returns [A, B]. *)
Theorem extract_event_ids_first_occurrences {uni : Unicode} (html : str) :
  extract_event_ids html = first_occurrences (finditer events_pattern html) ∧
  NoDup (extract_event_ids html) ∧
  (∀ id, id ∈ extract_event_ids html ↔ id ∈ finditer events_pattern html) ∧
  (∀ id, id ∈ extract_event_ids html →
     id ≠ [] ∧ Forall (λ c, isdigit c = true) id ∧
     ∃ before after, html = before ++ codes "/events/" ++ id ++ after ∧
                     (∀ c, head after = Some c → isdigit c = false)) ∧
  (∀ A B, A ≠ B → finditer events_pattern html = [A; B; A] →
          extract_event_ids html = [A; B]).
Proof.
  unfold extract_event_ids. split_and!.
  - apply unique_first_occurrences.
  - apply NoDup_unique.
  - intros id. apply elem_of_unique.
  - intros id (before & at_ & n & -> & Hm)%elem_of_unique%finditer_from_elem.
    apply events_pattern_Some in Hm as (_ & Hne & Hall & rest & -> & Hrest).
    split_and!; [done..|]. by exists before, rest.
  - intros A B HAB ->. rewrite unique_first_occurrences.
    unfold first_occurrences. simpl.
    destruct (decide (B ∈ [A])) as [HB|_].
    { apply list_elem_of_singleton in HB. by destruct HAB. }
    destruct (decide (A ∈ [A; B])) as [_|HA]; [|destruct HA; left].
    reflexivity.
Qed.

Lemma extract_event_ids_aba :
  extract_event_ids (uni := ascii_unicode) listing_aba = [codes "111"; codes "222"].
Proof.
  apply (proj2 (proj2 (proj2 (proj2
    (extract_event_ids_first_occurrences (uni := ascii_unicode) listing_aba))))).
  - discriminate.
  - vm_compute. reflexivity.
Defined.

(** C10. The stable-unique filter is idempotent: the extractor's result has
    no duplicates, so the second [unique] of [main] returns it unchanged. *)
Theorem unique_extract_event_ids {uni : Unicode} (html : str) :
  unique (extract_event_ids html) = extract_event_ids html.
Proof. apply unique_NoDup. unfold extract_event_ids. apply NoDup_unique. Qed.

(** C7. When the listing links at least 20 distinct identifiers, the capped
    working set is the first 20 of them, each taken at its first occurrence,
    in the order of the listing; when the links are all distinct it is the
    first 20 links. *)
Theorem cap_event_ids_first_twenty {uni : Unicode} (html : str) :
  20 ≤ size (list_to_set (finditer events_pattern html) : gset str) →
  cap_event_ids (extract_event_ids html)
    = take 20 (first_occurrences (finditer events_pattern html)) ∧
  length (cap_event_ids (extract_event_ids html)) = 20 ∧
  NoDup (cap_event_ids (extract_event_ids html)) ∧
  (NoDup (finditer events_pattern html) →
   cap_event_ids (extract_event_ids html)
     = take 20 (finditer events_pattern html)).
Proof.
  intros Hsize. unfold cap_event_ids, extract_event_ids.
  rewrite (unique_NoDup (unique _)) by apply NoDup_unique.
  split_and!.
  - by rewrite unique_first_occurrences.
  - rewrite length_take, length_unique. lia.
  - eapply sublist_NoDup; [apply NoDup_unique|apply sublist_take].
  - intros Hnd. by rewrite unique_NoDup.
Qed.

Lemma cap_event_ids_listing_25 :
  cap_event_ids (extract_event_ids (uni := ascii_unicode) listing_25)
  = (λ n, codes (pretty (Z.of_nat n))) <$> seq 101 20.
Proof.
  assert (Hsize : 20 ≤ size (list_to_set
    (finditer (events_pattern (uni := ascii_unicode)) listing_25) : gset str)).
  { vm_compute. lia. }
  destruct (cap_event_ids_first_twenty (uni := ascii_unicode) listing_25 Hsize)
    as (_ & _ & _ & Hcap).
  rewrite Hcap.
  - vm_compute. reflexivity.
  - apply (bool_decide_unpack _). vm_compute. exact I.
Defined.

(** ** The script scan: properties *)

Section ScanFacts.
Context {uni : Unicode} {dates : DateLibs}.

Lemma scan_candidate_resolved s e iso :
  scan_candidate (Some s, Some e) iso = (Some s, Some e).
Proof. unfold scan_candidate. by destruct (dp_parse false iso). Qed.

Lemma scan_candidates_resolved s e cs :
  foldl scan_candidate (Some s, Some e) cs = (Some s, Some e).
Proof.
  induction cs as [|c cs IH]; simpl; [done|].
  by rewrite scan_candidate_resolved.
Qed.

Lemma scan_candidates_unparsable st cs :
  Forall (λ c, dp_parse false c = None) cs →
  foldl scan_candidate st cs = st.
Proof.
  intros Hcs. revert st.
  induction Hcs as [|c cs Hc _ IH]; intros st; simpl; [done|].
  rewrite IH. unfold scan_candidate. by rewrite Hc.
Qed.

Lemma scan_candidates_not_accepted d1 cs :
  Forall (not_accepted d1) cs →
  foldl scan_candidate (Some d1, None) cs = (Some d1, None).
Proof.
  induction 1 as [|c cs Hc _ IH]; simpl; [done|].
  replace (scan_candidate (Some d1, None) c) with (Some d1, @None datetime);
    [done|].
  unfold scan_candidate.
  destruct (dp_parse false c) as [dt|] eqn:Hp; [|done].
  specialize (Hc dt Hp).
  by destruct (dt_ge dt d1) as [[]|].
Qed.

Lemma scan_candidate_first iso d end_dt :
  dp_parse false iso = Some d →
  scan_candidate (None, end_dt) iso = (Some d, end_dt).
Proof. intros Hp. unfold scan_candidate. by rewrite Hp. Qed.

Lemma scan_candidate_second iso d d1 :
  dp_parse false iso = Some d → dt_ge d d1 = Some true →
  scan_candidate (Some d1, None) iso = (Some d1, Some d).
Proof. intros Hp Hge. unfold scan_candidate. by rewrite Hp, Hge. Qed.

(** The nested loops are one loop over the candidates. *)
Lemma scan_scripts_candidates st blocks :
  foldl scan_script st blocks
  = foldl scan_candidate st (script_candidates blocks).
Proof.
  revert st. induction blocks as [|b blocks IH]; intros st; [done|].
  unfold script_candidates. simpl. rewrite foldl_app, IH.
  unfold scan_script. by destruct (mentions_event (script_txt b)).
Qed.

Lemma script_candidates_app pre post :
  script_candidates (pre ++ post)
  = script_candidates pre ++ script_candidates post.
Proof. unfold script_candidates. apply bind_app. Qed.

Lemma script_candidates_cons b post :
  mentions_event (script_txt b) = true →
  script_candidates (b :: post)
  = finditer iso_pattern (script_txt b) ++ script_candidates post.
Proof. intros Hb. unfold script_candidates. simpl. by rewrite Hb. Qed.

Lemma scan_candidate_inv st iso : scan_inv st → scan_inv (scan_candidate st iso).
Proof.
  intros Hst. unfold scan_candidate.
  destruct (dp_parse false iso) as [dt|]; [|done].
  destruct st as [[s|] [e|]]; simpl.
  - done.
  - destruct (dt_ge dt s) as [[]|] eqn:Hge; [|done..].
    intros e [= <-]. by exists s.
  - by destruct (Hst e eq_refl) as (s & [=] & _).
  - by intros e [=].
Qed.

Lemma scan_candidates_inv st cs :
  scan_inv st → scan_inv (foldl scan_candidate st cs).
Proof.
  revert st. induction cs as [|c cs IH]; intros st Hst; simpl; [done|].
  by apply IH, scan_candidate_inv.
Qed.

Lemma scan_scripts_inv soup : scan_inv (scan_scripts soup).
Proof.
  unfold scan_scripts. rewrite scan_scripts_candidates.
  apply scan_candidates_inv. intros e [=].
Qed.

Lemma start_parse_soup soup :
  start (parse_soup soup)
  = match (scan_scripts soup).1 with
    | Some dt => Some dt
    | None => time_fallback (time_tags soup)
    end.
Proof. unfold parse_soup. by destruct (scan_scripts soup). Qed.

Lemma end_parse_soup soup : end_ (parse_soup soup) = (scan_scripts soup).2.
Proof. unfold parse_soup. by destruct (scan_scripts soup). Qed.

Lemma time_fallback_first before p after dt :
  Forall (λ q, dp_parse true (time_source q) = None) before →
  dp_parse true (time_source p) = Some dt →
  time_fallback (before ++ p :: after) = Some dt.
Proof.
  intros Hb Hp. induction Hb as [|q before Hq _ IH]; simpl.
  - by rewrite Hp.
  - by rewrite Hq.
Qed.

Lemma time_fallback_none tags :
  Forall (λ q, dp_parse true (time_source q) = None) tags →
  time_fallback tags = None.
Proof. induction 1 as [|q tags Hq _ IH]; simpl; [done|]. by rewrite Hq. Qed.
End ScanFacts.

Section ParserFacts.
Context {uni : Unicode} {dates : DateLibs}.

Lemma scan_candidates_start c_pre T1 d1 :
  Forall (λ c, dp_parse false c = None) c_pre →
  dp_parse false T1 = Some d1 →
  foldl scan_candidate (None, None) (c_pre ++ [T1]) = (Some d1, None).
Proof.
  intros Hpre H1. rewrite foldl_app, (scan_candidates_unparsable _ c_pre) by done.
  simpl. by apply scan_candidate_first.
Qed.

Lemma scan_candidates_start_end c_pre T1 c_mid T2 c_post d1 d2 :
  Forall (λ c, dp_parse false c = None) c_pre →
  dp_parse false T1 = Some d1 →
  Forall (not_accepted d1) c_mid →
  dp_parse false T2 = Some d2 →
  dt_ge d2 d1 = Some true →
  foldl scan_candidate (None, None) (c_pre ++ T1 :: c_mid ++ T2 :: c_post)
  = (Some d1, Some d2).
Proof.
  intros Hpre H1 Hmid H2 Hge.
  rewrite (cons_middle T1), (assoc_L (++)), foldl_app.
  rewrite (scan_candidates_start _ _ d1) by done.
  rewrite foldl_app, (scan_candidates_not_accepted d1 c_mid) by done.
  simpl. rewrite (scan_candidate_second _ d2) by done.
  apply scan_candidates_resolved.
Qed.

Lemma scan_candidates_start_only c_pre T1 rest d1 :
  Forall (λ c, dp_parse false c = None) c_pre →
  dp_parse false T1 = Some d1 →
  Forall (not_accepted d1) rest →
  foldl scan_candidate (None, None) (c_pre ++ T1 :: rest) = (Some d1, None).
Proof.
  intros Hpre H1 Hrest.
  rewrite (cons_middle T1), (assoc_L (++)), foldl_app.
  rewrite (scan_candidates_start _ _ d1) by done.
  by apply scan_candidates_not_accepted.
Qed.

Lemma not_accepted_earlier T2 d1 d2 :
  dp_parse false T2 = Some d2 → dt_ge d2 d1 = Some false → not_accepted d1 T2.
Proof. intros H2 Hlt dt Hdt. congruence. Qed.

(** The record keeps the pair of the scan: an end only with the start
    it was compared with. *)
Lemma parse_soup_end_after_start soup e :
  end_ (parse_soup soup) = Some e →
  ∃ s, start (parse_soup soup) = Some s ∧ dt_ge e s = Some true.
Proof.
  rewrite end_parse_soup, start_parse_soup. intros He.
  destruct (scan_scripts_inv soup e He) as (s & Hs & Hge).
  exists s. by rewrite Hs.
Qed.
End ParserFacts.

(** ** The event-page parser: properties *)

(** C2. In a script block that names an event with a start or an end, when
    no earlier block gave a timestamp, the first candidate that parses
    becomes [start] and the first later candidate that parses to a value
    [>= start] becomes [end]: for candidates T1 then T2 with T2 >= T1,
    [start] is T1 and [end] is T2. *)
Theorem script_scan_start_then_end {uni : Unicode} {dates : DateLibs} {parser : Html}
    (html : str) pre script post c_pre T1 c_mid T2 c_post d1 d2 :
  scripts (BeautifulSoup html) = pre ++ script :: post →
  Forall (λ c, dp_parse false c = None) (script_candidates pre) →
  mentions_event (script_txt script) = true →
  finditer iso_pattern (script_txt script) = c_pre ++ T1 :: c_mid ++ T2 :: c_post →
  Forall (λ c, dp_parse false c = None) c_pre →
  dp_parse false T1 = Some d1 →
  Forall (not_accepted d1) c_mid →
  dp_parse false T2 = Some d2 →
  dt_ge d2 d1 = Some true →
  start (parse_event_page html) = Some d1 ∧
  end_ (parse_event_page html) = Some d2.
Proof.
  intros Hscripts Hpre Hev Hcs Hcpre H1 Hmid H2 Hge.
  unfold parse_event_page.
  rewrite start_parse_soup, end_parse_soup. unfold scan_scripts.
  rewrite scan_scripts_candidates, Hscripts, script_candidates_app,
    script_candidates_cons, Hcs by done.
  rewrite <-!(assoc_L (++)), (assoc_L (++) (script_candidates pre)).
  simpl. rewrite <-!(assoc_L (++)). simpl.
  rewrite (assoc_L (++) (script_candidates pre)).
  rewrite (scan_candidates_start_end _ T1 c_mid T2 _ d1 d2); [done| |done..].
  by apply Forall_app.
Qed.

Lemma script_scan_start_then_end_mixed :
  let r := parse_event_page (uni := ascii_unicode) (dates := iso_dates)
             (parser := script_page txt_mixed) (script_html txt_mixed) in
  start r = Some (at_2024_05_01 10) ∧ end_ r = Some (at_2024_05_01 12).
Proof.
  apply (script_scan_start_then_end (uni := ascii_unicode) (dates := iso_dates)
           (parser := script_page txt_mixed) (script_html txt_mixed)
           [] {| script_string := Some txt_mixed; script_text := txt_mixed |} []
           [codes "2024-02-30T08:00:00"] (codes "2024-05-01T10:00:00")
           [codes "2024-05-01T09:00:00"] (codes "2024-05-01T12:00:00") []).
  - vm_compute. reflexivity.
  - constructor.
  - vm_compute. reflexivity.
  - vm_compute. reflexivity.
  - repeat constructor.
  - vm_compute. reflexivity.
  - constructor; [|constructor].
    intros dt Hdt. vm_compute in Hdt. injection Hdt as <-. discriminate.
  - vm_compute. reflexivity.
  - vm_compute. reflexivity.
Defined.

(** C3, as stated, fails: after a start at 10:00 and a candidate at 09:00
    that is refused, the candidate at 12:00 that follows is taken as the
    end. *)
Lemma end_set_after_refused_candidate :
  let r := parse_event_page (uni := ascii_unicode) (dates := iso_dates)
             (parser := script_page txt_earlier_later)
             (script_html txt_earlier_later) in
  finditer (iso_pattern (uni := ascii_unicode)) txt_earlier_later
  = [codes "2024-05-01T10:00:00"; codes "2024-05-01T09:00:00";
     codes "2024-05-01T12:00:00"] ∧
  dt_ge (at_2024_05_01 9) (at_2024_05_01 10) = Some false ∧
  dt_ge (at_2024_05_01 12) (at_2024_05_01 10) = Some true ∧
  start r = Some (at_2024_05_01 10) ∧
  end_ r = Some (at_2024_05_01 12) ∧
  end_ r ≠ None.
Proof. vm_compute. split_and!; try reflexivity. discriminate. Qed.

(** C3, amended. After candidates T1 then T2 with T2 < T1, T2 is not taken
    as the end: [start] is T1 and [end] is never T2; [end] stays unset when
    no later candidate parses to a value [>= T1], and the first later
    candidate T3 that does becomes the end. *)
Theorem script_scan_earlier_not_end {uni : Unicode} {dates : DateLibs}
    {parser : Html} (html : str) pre script post T1 T2 rest d1 d2 :
  scripts (BeautifulSoup html) = pre ++ script :: post →
  Forall (λ c, dp_parse false c = None) (script_candidates pre) →
  mentions_event (script_txt script) = true →
  finditer iso_pattern (script_txt script) = T1 :: T2 :: rest →
  dp_parse false T1 = Some d1 →
  dp_parse false T2 = Some d2 →
  dt_ge d2 d1 = Some false →
  start (parse_event_page html) = Some d1 ∧
  end_ (parse_event_page html) ≠ Some d2 ∧
  (Forall (not_accepted d1) (rest ++ script_candidates post) →
   end_ (parse_event_page html) = None) ∧
  (∀ mid T3 after d3,
     rest ++ script_candidates post = mid ++ T3 :: after →
     Forall (not_accepted d1) mid →
     dp_parse false T3 = Some d3 →
     dt_ge d3 d1 = Some true →
     end_ (parse_event_page html) = Some d3).
Proof.
  intros Hscripts Hpre Hev Hcs HT1 HT2 Hlt.
  assert (Hscan : scan_scripts (BeautifulSoup html)
    = foldl scan_candidate (None, None)
        (script_candidates pre ++ T1 :: T2 :: rest ++ script_candidates post)).
  { unfold scan_scripts.
    rewrite scan_scripts_candidates, Hscripts, script_candidates_app,
      script_candidates_cons, Hcs by done.
    reflexivity. }
  assert (HT2' : not_accepted d1 T2) by by eapply not_accepted_earlier.
  assert (Hstart : start (parse_event_page html) = Some d1).
  { unfold parse_event_page. rewrite start_parse_soup, Hscan.
    rewrite (cons_middle T1), (assoc_L (++)), foldl_app.
    rewrite (scan_candidates_start _ _ d1) by done.
    generalize (T2 :: rest ++ script_candidates post). intros cs.
    assert (Hkeep : ∀ e, (foldl scan_candidate (Some d1, e) cs).1 = Some d1).
    { induction cs as [|c cs IH]; intros e; simpl; [done|].
      unfold scan_candidate at 2.
      destruct (dp_parse false c) as [dt|]; [|apply IH].
      destruct e as [e|]; [apply IH|].
      destruct (dt_ge dt d1) as [[]|]; apply IH. }
    by rewrite Hkeep. }
  split_and!; [done| | |].
  - intros Hend.
    destruct (parse_soup_end_after_start _ _ Hend) as (s & Hs & Hge).
    unfold parse_event_page in Hstart. congruence.
  - intros Hrest. unfold parse_event_page. rewrite end_parse_soup, Hscan.
    rewrite (scan_candidates_start_only _ T1 _ d1); [done..|].
    by constructor.
  - intros mid T3 after d3 Hlater Hmid HT3 Hge.
    unfold parse_event_page. rewrite end_parse_soup, Hscan, Hlater.
    rewrite (scan_candidates_start_end _ T1 (T2 :: mid) T3 after d1 d3);
      [done..| |done|done].
    by constructor.
Qed.

Lemma script_scan_earlier_then_later :
  let r := parse_event_page (uni := ascii_unicode) (dates := iso_dates)
             (parser := script_page txt_earlier_later)
             (script_html txt_earlier_later) in
  start r = Some (at_2024_05_01 10) ∧ end_ r = Some (at_2024_05_01 12).
Proof.
  destruct (script_scan_earlier_not_end (uni := ascii_unicode)
      (dates := iso_dates) (parser := script_page txt_earlier_later)
      (script_html txt_earlier_later) []
      {| script_string := Some txt_earlier_later;
         script_text := txt_earlier_later |} []
      (codes "2024-05-01T10:00:00") (codes "2024-05-01T09:00:00")
      [codes "2024-05-01T12:00:00"] (at_2024_05_01 10) (at_2024_05_01 9))
    as (Hstart & _ & _ & Hlater); try (vm_compute; reflexivity).
  - constructor.
  - split; [exact Hstart|].
    apply (Hlater [] (codes "2024-05-01T12:00:00") []);
      try (vm_compute; reflexivity).
    constructor.
Defined.

(** C4. In every record of the parser, an end is set only together with a
    start, and it was found [>=] that start. *)
Theorem parse_event_page_end_after_start {uni : Unicode} {dates : DateLibs}
    {parser : Html} (html : str) (e : datetime) :
  end_ (parse_event_page html) = Some e →
  ∃ s, start (parse_event_page html) = Some s ∧ dt_ge e s = Some true.
Proof. apply parse_soup_end_after_start. Qed.

Lemma parse_event_page_end_after_start_two :
  ∃ s, start (parse_event_page (uni := ascii_unicode) (dates := iso_dates)
                (parser := script_page txt_start_end) (script_html txt_start_end))
       = Some s
       ∧ dt_ge (at_2024_05_01 12) s = Some true.
Proof.
  apply (parse_event_page_end_after_start (uni := ascii_unicode)
           (dates := iso_dates) (parser := script_page txt_start_end)
           (script_html txt_start_end) (at_2024_05_01 12)).
  vm_compute. reflexivity.
Defined.

(** C8, as stated, fails: a [time] element whose attribute is no date is
    passed over, though its text is one. *)
Lemma time_text_not_tried :
  dp_parse (DateLibs := iso_dates) true (codes "TBD") = None ∧
  dp_parse (DateLibs := iso_dates) true (codes "2024-05-01T10:00:00")
  = Some (at_2024_05_01 10) ∧
  time_tags (BeautifulSoup (Html := time_page) time_html)
  = [{| attr_datetime := Some (codes "TBD");
        visible_text := codes "2024-05-01T10:00:00" |}] ∧
  start (parse_event_page (uni := ascii_unicode) (dates := iso_dates)
           (parser := time_page) time_html) = None.
Proof. vm_compute. split_and!; reflexivity. Qed.

(** C8, amended. The fallback runs only when the script scan left [start]
    unset.  It reads, for each [time] or [abbr] element in document order,
    the [datetime] attribute when that is present and not empty and the
    visible text otherwise, with fuzzy parsing; the first element whose
    text parses gives [start] and ends the loop, an element whose text does
    not parse is passed over, and [end] is not touched. *)
Theorem time_fallback_first_parsed {uni : Unicode} {dates : DateLibs}
    {parser : Html} (html : str) :
  let soup := BeautifulSoup html in
  (∀ dt, (scan_scripts soup).1 = Some dt →
         start (parse_event_page html) = Some dt) ∧
  (∀ before p after dt,
     (scan_scripts soup).1 = None →
     time_tags soup = before ++ p :: after →
     Forall (λ q, dp_parse true (time_source q) = None) before →
     dp_parse true (time_source p) = Some dt →
     start (parse_event_page html) = Some dt) ∧
  ((scan_scripts soup).1 = None →
   Forall (λ q, dp_parse true (time_source q) = None) (time_tags soup) →
   start (parse_event_page html) = None) ∧
  (∀ p, time_source p
        = match attr_datetime p with
          | Some (c :: a) => c :: a
          | _ => visible_text p
          end) ∧
  end_ (parse_event_page html) = (scan_scripts soup).2.
Proof.
  intros soup. unfold parse_event_page. fold soup.
  rewrite start_parse_soup, end_parse_soup. split_and!.
  - by intros dt ->.
  - intros before p after dt -> -> Hb Hp. by apply time_fallback_first.
  - intros -> Hall. by apply time_fallback_none.
  - intros p. unfold time_source, str_or. by destruct (attr_datetime p) as [[|]|].
  - done.
Qed.

Lemma time_fallback_second_element :
  start (parse_event_page (uni := ascii_unicode) (dates := iso_dates)
           (parser := time_page_two) time_html_two)
  = Some (at_2024_05_01 10).
Proof.
  apply (proj1 (proj2 (time_fallback_first_parsed (uni := ascii_unicode)
           (dates := iso_dates) (parser := time_page_two) time_html_two))
         [{| attr_datetime := Some (codes "TBD"); visible_text := codes "soon" |}]
         {| attr_datetime := None; visible_text := codes "2024-05-01T10:00:00" |}
         []).
  - vm_compute. reflexivity.
  - vm_compute. reflexivity.
  - repeat constructor.
  - vm_compute. reflexivity.
Defined.

(** ** The record filter and the calendar builder: properties *)


Section BuildFacts.
Context {dates : DateLibs}.

(** What a built event holds. *)
Lemma build_event_Some now e ev :
build_event now e = Some ev →
name ev = title e ∧
begin ev = ensure_aware <$> start e ∧
ev_end ev = ensure_aware <$> end_ e ∧
ev_url ev = when_set (url e) ∧
ev_description ev = when_set (Some (description e)) ∧
ev_location ev = when_set (location e) ∧
uid ev = str_or (url e) (time_uid now) ++ codes "@streamwood-biking" ∧
end_refused (ensure_aware <$> start e) (ensure_aware <$> end_ e) = false.
Proof.
unfold build_event.
destruct (end_refused _ _) eqn:Href; [done|]. by intros [= <-].
Qed.

Lemma build_ics_from_lookup clock k events evs :
build_ics_from clock k events = Some evs →
∀ i e, events !! i = Some e →
       ∃ ev, evs !! i = Some ev ∧ build_event (clock (k + i)) e = Some ev.
Proof.
revert k evs. induction events as [|e0 events IH]; intros k evs; simpl.
- by intros _ i e.
- intros (ev0 & Hev0 & (evs' & Hevs' & [= <-])%bind_Some)%bind_Some i e.
  destruct i as [|i]; simpl.
  + intros [= <-]. exists ev0. by rewrite Nat.add_0_r.
  + intros He. destruct (IH _ _ Hevs' i e He) as (ev & Hev & Hb).
    exists ev. split; [done|]. by rewrite <-Nat.add_succ_comm.
Qed.

Lemma build_ics_from_length clock k events evs :
build_ics_from clock k events = Some evs → length evs = length events.
Proof.
revert k evs. induction events as [|e0 events IH]; intros k evs; simpl.
- by intros [= <-].
- intros (ev0 & Hev0 & (evs' & Hevs' & [= <-])%bind_Some)%bind_Some.
  simpl. f_equal. by eapply IH.
Qed.

Lemma build_ics_from_Forall2 clock k events evs :
build_ics_from clock k events = Some evs →
Forall2 (λ e ev, ∃ now, build_event now e = Some ev) events evs.
Proof.
revert k evs. induction events as [|e0 events IH]; intros k evs; simpl.
- intros [= <-]. constructor.
- intros (ev0 & Hev0 & (evs' & Hevs' & [= <-])%bind_Some)%bind_Some.
  constructor; [by eexists|by eapply IH].
Qed.


Lemma build_ics_lookup clock events evs i e :
build_ics clock events = Some evs → events !! i = Some e →
∃ ev, evs !! i = Some ev ∧ build_event (clock i) e = Some ev.
Proof. intros Hb He. apply (build_ics_from_lookup clock 0 events evs Hb i e He). Qed.
End BuildFacts.



(** The builder raises on a record whose end, once both are localized,
    precedes its begin: here a start of 18:00 without a zone, which the
    default zone puts at 23:00 UTC, and an end of 20:00 UTC. *)
Lemma build_ics_end_before_begin :
  build_ics (dates := iso_dates) (λ _, 1700000000%Z) [record_a; record_b]
  = None.
Proof. vm_compute. reflexivity. Qed.




(** ** The pipeline: properties *)

Section PipelineFacts.
Context {uni : Unicode} {dates : DateLibs} {parser : Html} {browser : Browser}.

Lemma event_url_truthy eid : truthy (Some (event_url eid)) = true.
Proof. reflexivity. Qed.

Lemma visit_record page eid page' r :
  visit page eid = Some (page', r) →
  goto (event_url eid) page = Some page' ∧
  r = (if truthy (url (parse_event_page (content page')))
       then parse_event_page (content page')
       else set_url (event_url eid) (parse_event_page (content page'))).
Proof.
  unfold visit. destruct (goto (event_url eid) page) as [p|]; simpl; [|done].
  by intros [= <- <-].
Qed.

Lemma visit_url page eid page' r :
  visit page eid = Some (page', r) → truthy (url r) = true.
Proof.
  intros (_ & ->)%visit_record.
  by destruct (truthy (url (parse_event_page (content page')))) eqn:Hu.
Qed.

Lemma main_loop_urls event_ids page results page' rs :
  main_loop page event_ids results = Some (page', rs) →
  Forall (λ r, truthy (url r) = true) results →
  Forall (λ r, truthy (url r) = true) rs.
Proof.
  revert page results.
  induction event_ids as [|eid ids IH]; intros page results; simpl.
  - by intros [= <- <-].
  - destruct (visit page eid) as [[p r]|] eqn:Hv; simpl; [|done].
    intros Hloop Hres. apply (IH _ _ Hloop).
    apply Forall_app. split; [done|].
    constructor; [|constructor]. by eapply visit_url.
Qed.

Lemma main_loop_returns event_ids page results :
  (∀ u p, is_Some (goto u p)) →
  is_Some (main_loop page event_ids results).
Proof.
  intros Hgoto. revert page results.
  induction event_ids as [|eid ids IH]; intros page results; simpl; [done|].
  unfold visit. destruct (Hgoto (event_url eid) page) as [p ->]. simpl.
  apply IH.
Qed.

Lemma collect_urls page results :
  collect page = Some results →
  Forall (λ r, truthy (url r) = true) results.
Proof.
  unfold collect. destruct (goto EVENTS_URL page) as [p|]; simpl; [|done].
  destruct (main_loop _ _ []) as [[p' rs]|] eqn:Hloop; simpl; [|done].
  intros [= <-]. by eapply main_loop_urls.
Qed.

Lemma with_start_urls results :
  Forall (λ r, truthy (url r) = true) results →
  Forall (λ r, truthy (url r) = true) (with_start results).
Proof.
  rewrite !Forall_forall. intros Hall r Hr. apply Hall.
  unfold with_start in Hr. by apply list_elem_of_filter in Hr as [_ ?].
Qed.

Lemma build_event_url now e :
  truthy (url e) = true →
  build_event now e = build_event 0 e ∧
  ∃ u, url e = Some u ∧ u ≠ [] ∧
       ∀ ev, build_event now e = Some ev →
             uid ev = u ++ codes "@streamwood-biking".
Proof.
  unfold build_event, str_or, truthy.
  destruct (url e) as [[|c u]|]; [done| |done]. intros _. split; [done|].
  exists (c :: u). split_and!; [done..|].
  destruct (end_refused _ _); [done|]. by intros ev [= <-].
Qed.

Lemma build_ics_from_urls clock k events :
  Forall (λ r, truthy (url r) = true) events →
  build_ics_from clock k events = build_ics_from (λ _, 0%Z) 0 events.
Proof.
  intros Hall. revert clock k.
  induction Hall as [|e events He _ IH]; intros clock k; simpl; [done|].
  rewrite (proj1 (build_event_url (clock k) e He)).
  by rewrite (IH clock (S k)), (IH (λ _, 0%Z) 1).
Qed.

Lemma Forall2_Forall_and {A B} (P : A → Prop) (R : A → B → Prop) l k :
  Forall P l → Forall2 R l k → Forall2 (λ x y, P x ∧ R x y) l k.
Proof.
  intros Hl Hlk. induction Hlk as [|x y l k Hxy _ IH]; [constructor|].
  inversion Hl; subst. constructor; [done|by apply IH].
Qed.

Lemma collect_returns page :
  (∀ u p, is_Some (goto u p)) → is_Some (collect page).
Proof.
  intros Hgoto. unfold collect.
  destruct (Hgoto EVENTS_URL page) as [p ->]. simpl.
  destruct (main_loop_returns
    (cap_event_ids (extract_event_ids
      (content (mouse_wheel (mouse_wheel (mouse_wheel p))))))
    (mouse_wheel (mouse_wheel (mouse_wheel p))) [] Hgoto) as [[p' rs] ->].
  by simpl.
Qed.
End PipelineFacts.

(** C9. Every record the loop of [main] appends has its address set: the
    one the page states, or else the address the page was fetched from.  So
    every event the builder adds to the calendar gets the identifier made of
    that address and the suffix, and the clock is never read for it: the
    run gives the same under every clock.  A run whose navigations all
    succeed collects its records. *)
Theorem pipeline_uid_from_url {uni : Unicode} {dates : DateLibs}
    {parser : Html} {browser : Browser} (page : Page) :
  (∀ p eid p' r, visit p eid = Some (p', r) →
     url r = if truthy (url (parse_event_page (content p')))
             then url (parse_event_page (content p'))
             else Some (event_url eid)) ∧
  (∀ results, collect page = Some results →
     Forall (λ r, truthy (url r) = true) results) ∧
  (∀ clock evs, main clock page = Some evs →
     ∃ results, collect page = Some results ∧
       Forall2 (λ r ev, ∃ u, url r = Some u ∧ u ≠ [] ∧
                  uid ev = u ++ codes "@streamwood-biking")
               (with_start results) evs) ∧
  (∀ clock clock', main clock page = main clock' page) ∧
  ((∀ u p, is_Some (goto u p)) → is_Some (collect page)).
Proof.
  split_and!.
  - intros p eid p' r (_ & ->)%visit_record.
    by destruct (truthy (url (parse_event_page (content p')))).
  - apply collect_urls.
  - intros clock evs. unfold main.
    destruct (collect page) as [results|] eqn:Hc; simpl; [|done].
    intros Hb. exists results. split; [done|].
    pose proof (with_start_urls _ (collect_urls _ _ Hc)) as Hall.
    apply build_ics_from_Forall2 in Hb.
    eapply Forall2_impl; [exact (Forall2_Forall_and _ _ _ _ Hall Hb)|].
    intros r ev [Hr (now & Hev)].
    destruct (build_event_url now r Hr) as (_ & u & Hu & Hne & Huid).
    exists u. split_and!; [done..|]. by apply Huid.
  - intros clock clock'. unfold main.
    destruct (collect page) as [results|] eqn:Hc; simpl; [|done].
    pose proof (with_start_urls _ (collect_urls _ _ Hc)) as Hall.
    unfold build_ics.
    by rewrite (build_ics_from_urls clock), (build_ics_from_urls clock').
  - apply collect_returns.
Qed.

Lemma pipeline_uid_from_url_rides :
  ∃ results evs,
    collect (uni := ascii_unicode) (dates := iso_dates)
      (parser := rides_pages) (browser := site_browser rides_site) []
    = Some results ∧
    main (uni := ascii_unicode) (dates := iso_dates)
      (parser := rides_pages) (browser := site_browser rides_site)
      (λ _, 1700000000%Z) [] = Some evs ∧
    Forall (λ r, truthy (url r) = true) results ∧
    uid <$> evs
    = [codes "https://www.facebook.com/events/111/@streamwood-biking";
       codes "https://m.facebook.com/events/222@streamwood-biking"].
Proof.
  destruct (pipeline_uid_from_url (uni := ascii_unicode) (dates := iso_dates)
    (parser := rides_pages) (browser := site_browser rides_site) [])
    as (_ & Hurls & Huid & _ & _).
  destruct (main (uni := ascii_unicode) (dates := iso_dates)
    (parser := rides_pages) (browser := site_browser rides_site)
    (λ _, 1700000000%Z) []) as [evs|] eqn:Hmain;
    [|vm_compute in Hmain; discriminate].
  destruct (Huid _ _ Hmain) as (results & Hres & _).
  exists results, evs. split_and!; [done|done|by apply Hurls|].
  vm_compute in Hmain. injection Hmain as <-. reflexivity.
Defined.

(** ** Further properties of the parser *)

Section MetaFacts.
Context {uni : Unicode} {dates : DateLibs}.

Lemma try_og_meta_absent soup prop :
Forall (λ t, meta_property t ≠ Some prop) (metas soup) →
try_og_meta soup prop = None.
Proof.
intros Hall. unfold try_og_meta.
replace (list_find (λ tag, meta_property tag = Some prop) (metas soup))
  with (@None (nat * MetaTag)); [done|].
symmetry. by apply list_find_None.
Qed.

Lemma try_og_meta_first soup prop before tag after :
metas soup = before ++ tag :: after →
Forall (λ t, meta_property t ≠ Some prop) before →
meta_property tag = Some prop →
try_og_meta soup prop = meta_content tag.
Proof.
unfold try_og_meta. intros -> Hbefore Htag.
induction Hbefore as [|t before Ht _ IH]; simpl.
- by rewrite decide_True.
- rewrite decide_False by done.
  destruct (list_find _ (before ++ tag :: after)) as [[i t']|]; simpl in *;
    done.
Qed.

Lemma str_or_nonempty o d : d ≠ [] → str_or o d ≠ [].
Proof. intros Hd. unfold str_or. by destruct o as [[|c s]|]. Qed.
End MetaFacts.

(** X1. Of the [meta] tags that carry a property, the first one decides:
    its content is the value, and a first tag without content gives no
    value even when a later tag of the same property has one; without such
    a tag there is no value. *)
Theorem try_og_meta_first_tag (soup : Soup) (prop : str) :
  (∀ before tag after,
     metas soup = before ++ tag :: after →
     Forall (λ t, meta_property t ≠ Some prop) before →
     meta_property tag = Some prop →
     try_og_meta soup prop = meta_content tag) ∧
  (Forall (λ t, meta_property t ≠ Some prop) (metas soup) →
   try_og_meta soup prop = None).
Proof.
  split.
  - intros before tag after. apply try_og_meta_first.
  - apply try_og_meta_absent.
Qed.

Lemma try_og_meta_first_tag_two_titles :
  try_og_meta soup_two_titles (codes "og:title") = None.
Proof.
  apply (proj1 (try_og_meta_first_tag soup_two_titles (codes "og:title"))
    [{| meta_property := Some (codes "og:type");
        meta_content := Some (codes "event") |}]
    {| meta_property := Some (codes "og:title"); meta_content := None |}
    [{| meta_property := Some (codes "og:title");
        meta_content := Some (codes "Sunday ride") |}]).
  - reflexivity.
  - constructor; [discriminate|constructor].
  - reflexivity.
Defined.

(** X2. The title of a record is never empty: it is the content of the
    first [og:title] tag when that is not empty and [Untitled Event]
    otherwise, so also when the page has no such tag; without an
    [og:description] tag the description is empty, and without an [og:url]
    tag the address is unset. *)
Theorem parse_event_page_defaults {uni : Unicode} {dates : DateLibs}
    {parser : Html} (html : str) :
  title (parse_event_page html) ≠ [] ∧
  (∀ before tag after,
     metas (BeautifulSoup html) = before ++ tag :: after →
     Forall (λ t, meta_property t ≠ Some (codes "og:title")) before →
     meta_property tag = Some (codes "og:title") →
     title (parse_event_page html)
     = match meta_content tag with
       | Some (c :: t) => c :: t
       | _ => codes "Untitled Event"
       end) ∧
  (Forall (λ t, meta_property t ≠ Some (codes "og:title"))
          (metas (BeautifulSoup html)) →
   title (parse_event_page html) = codes "Untitled Event") ∧
  (Forall (λ t, meta_property t ≠ Some (codes "og:description"))
          (metas (BeautifulSoup html)) →
   description (parse_event_page html) = []) ∧
  (Forall (λ t, meta_property t ≠ Some (codes "og:url"))
          (metas (BeautifulSoup html)) →
   url (parse_event_page html) = None).
Proof.
  unfold parse_event_page, parse_soup.
  destruct (scan_scripts (BeautifulSoup html)) as [s e]. simpl.
  split_and!.
  - by apply str_or_nonempty.
  - intros before tag after Hm Hb Ht.
    rewrite (try_og_meta_first _ _ _ _ _ Hm Hb Ht).
    by destruct (meta_content tag) as [[|c t]|].
  - intros Hall. by rewrite try_og_meta_absent.
  - intros Hall. by rewrite try_og_meta_absent.
  - intros Hall. by rewrite try_og_meta_absent.
Qed.

Lemma parse_event_page_defaults_script_page :
  let r := parse_event_page (uni := ascii_unicode) (dates := iso_dates)
             (parser := script_page txt_start_end) (script_html txt_start_end) in
  title r = codes "Untitled Event" ∧ description r = [] ∧ url r = None.
Proof.
  destruct (parse_event_page_defaults (uni := ascii_unicode)
    (dates := iso_dates) (parser := script_page txt_start_end)
    (script_html txt_start_end)) as (_ & _ & Ht & Hd & Hu).
  split_and!; [apply Ht|apply Hd|apply Hu]; vm_compute; constructor.
Defined.

Section LocationFacts.
Context {uni : Unicode} {dates : DateLibs}.

Lemma location_parse_soup soup :
location (parse_soup soup) = location_scan soup loc_labels None.
Proof. unfold parse_soup. by destruct (scan_scripts soup). Qed.

(** A label gives no text: no node matches it, nothing follows the node, or
  what follows is empty. *)
Lemma location_scan_no_text soup labels loc :
Forall (λ l, ∀ t, find_label soup l = Some (Some t) → t = []) labels →
location_scan soup labels loc = loc ∨ location_scan soup labels loc = Some [].
Proof.
intros Hall. revert loc.
induction Hall as [|l labels Hl _ IH]; intros loc; simpl; [by left|].
destruct (find_label soup l) as [[t|]|] eqn:Hf; [|apply IH..].
rewrite (Hl t eq_refl). simpl.
destruct (IH (Some [])) as [Hs|Hs]; right; exact Hs.
Qed.

Lemma location_scan_first_text soup before lbl after t loc :
Forall (λ l, ∀ t', find_label soup l = Some (Some t') → t' = []) before →
find_label soup lbl = Some (Some t) → t ≠ [] →
location_scan soup (before ++ lbl :: after) loc = Some t.
Proof.
intros Hbefore Hlbl Ht. revert loc.
induction Hbefore as [|l before Hl _ IH]; intros loc; simpl.
- rewrite Hlbl. by destruct t.
- destruct (find_label soup l) as [[t'|]|] eqn:Hf; [|apply IH..].
  rewrite (Hl t' eq_refl). simpl. apply IH.
Qed.

Lemma location_scan_no_element soup labels loc :
Forall (λ l, ∀ t, find_label soup l ≠ Some (Some t)) labels →
location_scan soup labels loc = loc.
Proof.
intros Hall. revert loc.
induction Hall as [|l labels Hl _ IH]; intros loc; simpl; [done|].
destruct (find_label soup l) as [[t|]|] eqn:Hf; [|apply IH..].
by destruct (Hl t).
Qed.

Lemma location_scan_empty_text soup before lbl after loc :
find_label soup lbl = Some (Some []) →
Forall (λ l, ∀ t, find_label soup l = Some (Some t) → t = []) before →
Forall (λ l, ∀ t, find_label soup l = Some (Some t) → t = []) after →
location_scan soup (before ++ lbl :: after) loc = Some [].
Proof.
intros Hlbl Hbefore Hafter. revert loc.
induction Hbefore as [|l before Hl _ IH]; intros loc; simpl.
- rewrite Hlbl. simpl.
  by destruct (location_scan_no_text soup after (Some []) Hafter).
- destruct (find_label soup l) as [[t'|]|] eqn:Hf; [|apply IH..].
  rewrite (Hl t' eq_refl). simpl. apply IH.
Qed.
End LocationFacts.

(** X3. The location is the text that follows the first label, in the
    order Location, Place, Venue, Where, for which that text is not empty.
    When no label is followed by an element the location is unset; when
    some label is followed by an element but none by text, the location is
    the empty text, not unset. *)
Theorem location_first_label_with_text {uni : Unicode} {dates : DateLibs}
    {parser : Html} (html : str) :
  let soup := BeautifulSoup html in
  let no_text := λ l, ∀ t, find_label soup l = Some (Some t) → t = [] in
  (∀ before lbl after t,
     loc_labels = before ++ lbl :: after →
     Forall no_text before →
     find_label soup lbl = Some (Some t) → t ≠ [] →
     location (parse_event_page html) = Some t) ∧
  (Forall (λ l, ∀ t, find_label soup l ≠ Some (Some t)) loc_labels →
   location (parse_event_page html) = None) ∧
  (∀ before lbl after,
     loc_labels = before ++ lbl :: after →
     Forall no_text before → Forall no_text after →
     find_label soup lbl = Some (Some []) →
     location (parse_event_page html) = Some []).
Proof.
  intros soup no_text. unfold parse_event_page. fold soup.
  rewrite location_parse_soup. split_and!.
  - intros before lbl after t -> Hb Hl Ht.
    by apply location_scan_first_text.
  - intros Hall. by apply location_scan_no_element.
  - intros before lbl after -> Hb Ha Hl.
    by apply location_scan_empty_text.
Qed.

Lemma location_first_label_with_text_venue :
  location (parse_event_page (uni := ascii_unicode) (dates := iso_dates)
              (parser := known_pages [(page_333, soup_venue)]) page_333)
  = Some (codes "City Hall").
Proof.
  apply (proj1 (location_first_label_with_text (uni := ascii_unicode)
           (dates := iso_dates)
           (parser := known_pages [(page_333, soup_venue)]) page_333)
         [codes "Location"; codes "Place"] (codes "Venue") [codes "Where"]).
  - reflexivity.
  - constructor; [|constructor; [|constructor]].
    + intros t Ht. vm_compute in Ht. by injection Ht as <-.
    + intros t Ht. vm_compute in Ht. discriminate.
  - vm_compute. reflexivity.
  - discriminate.
Defined.

Section ScanMoreFacts.
Context {uni : Unicode} {dates : DateLibs}.

Lemma scan_candidates_keep_start d1 e cs :
(foldl scan_candidate (Some d1, e) cs).1 = Some d1.
Proof.
revert e. induction cs as [|c cs IH]; intros e; simpl; [done|].
unfold scan_candidate at 2.
destruct (dp_parse false c) as [dt|]; [|apply IH].
destruct e as [e|]; [apply IH|].
destruct (dt_ge dt d1) as [[]|]; apply IH.
Qed.

Lemma tuple_cmp_refl a : tuple_cmp a a = Eq.
Proof. induction a as [|x a IH]; simpl; [done|]. by rewrite Z.compare_refl. Qed.

Lemma dt_ge_refl d : dt_ge d d = Some true.
Proof.
unfold dt_ge, dt_cmp. rewrite decide_True by done.
by rewrite tuple_cmp_refl.
Qed.

(** Comparing a timestamp that has a [tzinfo] with one that has none
  raises. *)
Lemma dt_ge_raises a b :
¬ (tzinfo a = None ↔ tzinfo b = None) → dt_ge a b = None.
Proof.
intros Hmixed. unfold dt_ge, dt_cmp, checked_utcoffset.
destruct (tzinfo a) as [za|] eqn:Ha, (tzinfo b) as [zb|] eqn:Hb.
- destruct Hmixed. done.
- rewrite decide_False by done.
  by destruct ((-86400 <? tz_utcoffset za) && (tz_utcoffset za <? 86400))%Z.
- rewrite decide_False by done. simpl.
  by destruct ((-86400 <? tz_utcoffset zb) && (tz_utcoffset zb <? 86400))%Z.
- destruct Hmixed. done.
Qed.
End ScanMoreFacts.

(** X4. The start is the first candidate of the script scan that parses,
    whatever follows it in the scripts and whatever the [time] elements
    hold: it is never replaced. *)
Theorem start_first_parsed_candidate {uni : Unicode} {dates : DateLibs}
    {parser : Html} (html : str) c_pre T1 rest d1 :
  script_candidates (scripts (BeautifulSoup html)) = c_pre ++ T1 :: rest →
  Forall (λ c, dp_parse false c = None) c_pre →
  dp_parse false T1 = Some d1 →
  start (parse_event_page html) = Some d1.
Proof.
  intros Hcs Hpre HT1. unfold parse_event_page.
  rewrite start_parse_soup. unfold scan_scripts.
  rewrite scan_scripts_candidates, Hcs.
  rewrite (cons_middle T1), (assoc_L (++)), foldl_app.
  rewrite (scan_candidates_start _ _ d1) by done.
  by rewrite scan_candidates_keep_start.
Qed.

Lemma start_first_parsed_candidate_mixed :
  start (parse_event_page (uni := ascii_unicode) (dates := iso_dates)
           (parser := script_page txt_mixed) (script_html txt_mixed))
  = Some (at_2024_05_01 10).
Proof.
  apply (start_first_parsed_candidate (uni := ascii_unicode)
           (dates := iso_dates) (parser := script_page txt_mixed)
           (script_html txt_mixed)
           [codes "2024-02-30T08:00:00"] (codes "2024-05-01T10:00:00")
           [codes "2024-05-01T09:00:00"; codes "2024-05-01T12:00:00"]).
  - vm_compute. reflexivity.
  - repeat constructor.
  - vm_compute. reflexivity.
Defined.

(** X5. When no candidate of the script scan parses (no script block
    passes the test, or none holds a timestamp that parses), the start
    comes from the [time] elements alone and the end is unset: a start
    found in a [time] element never comes with an end. *)
Theorem no_script_candidate_no_end {uni : Unicode} {dates : DateLibs}
    {parser : Html} (html : str) :
  Forall (λ c, dp_parse false c = None)
         (script_candidates (scripts (BeautifulSoup html))) →
  start (parse_event_page html) = time_fallback (time_tags (BeautifulSoup html)) ∧
  end_ (parse_event_page html) = None.
Proof.
  intros Hall. unfold parse_event_page.
  rewrite start_parse_soup, end_parse_soup. unfold scan_scripts.
  by rewrite scan_scripts_candidates, scan_candidates_unparsable.
Qed.

Lemma no_script_candidate_no_end_time_page :
  let r := parse_event_page (uni := ascii_unicode) (dates := iso_dates)
             (parser := time_page_two) time_html_two in
  start r = Some (at_2024_05_01 10) ∧ end_ r = None.
Proof.
  apply (no_script_candidate_no_end (uni := ascii_unicode)
           (dates := iso_dates) (parser := time_page_two) time_html_two).
  vm_compute. constructor.
Defined.

(** X6. A candidate that parses to the same timestamp as the start is
    taken as the end: a script that states one time twice gives an event
    whose end equals its start. *)
Theorem repeated_timestamp_is_end {uni : Unicode} {dates : DateLibs}
    {parser : Html} (html : str) c_pre T1 T2 rest d :
  script_candidates (scripts (BeautifulSoup html)) = c_pre ++ T1 :: T2 :: rest →
  Forall (λ c, dp_parse false c = None) c_pre →
  dp_parse false T1 = Some d →
  dp_parse false T2 = Some d →
  start (parse_event_page html) = Some d ∧
  end_ (parse_event_page html) = Some d.
Proof.
  intros Hcs Hpre HT1 HT2. unfold parse_event_page.
  rewrite start_parse_soup, end_parse_soup. unfold scan_scripts.
  rewrite scan_scripts_candidates, Hcs.
  rewrite (scan_candidates_start_end c_pre T1 [] T2 rest d d);
    [done|done|done|constructor|done|apply dt_ge_refl].
Qed.

Lemma repeated_timestamp_is_end_same_twice :
  let r := parse_event_page (uni := ascii_unicode) (dates := iso_dates)
             (parser := script_page txt_same_twice)
             (script_html txt_same_twice) in
  start r = Some (at_2024_05_01 10) ∧ end_ r = Some (at_2024_05_01 10).
Proof.
  apply (repeated_timestamp_is_end (uni := ascii_unicode)
           (dates := iso_dates) (parser := script_page txt_same_twice)
           (script_html txt_same_twice)
           [] (codes "2024-05-01T10:00:00") (codes "2024-05-01T10:00:00") []).
  - vm_compute. reflexivity.
  - constructor.
  - vm_compute. reflexivity.
  - vm_compute. reflexivity.
Defined.

(** X7. Comparing a timestamp that has a [tzinfo] with one that has none
    raises, and the scan then keeps the candidate out: in every record an
    end has a [tzinfo] exactly when the start has one. *)
Theorem end_zone_like_start {uni : Unicode} {dates : DateLibs}
    {parser : Html} (html : str) (s e : datetime) :
  start (parse_event_page html) = Some s →
  end_ (parse_event_page html) = Some e →
  (tzinfo e = None ↔ tzinfo s = None).
Proof.
  intros Hs He.
  destruct (parse_soup_end_after_start _ _ He) as (s' & Hs' & Hge).
  unfold parse_event_page in Hs. rewrite Hs in Hs'. injection Hs' as <-.
  destruct (decide (tzinfo e = None ↔ tzinfo s = None)) as [|Hno]; [done|].
  apply dt_ge_raises in Hno. congruence.
Qed.

Lemma end_zone_like_start_two :
  tzinfo (at_2024_05_01 12) = None ↔ tzinfo (at_2024_05_01 10) = None.
Proof.
  apply (end_zone_like_start (uni := ascii_unicode) (dates := iso_dates)
           (parser := script_page txt_start_end) (script_html txt_start_end));
    vm_compute; reflexivity.
Defined.

(** X8. After a start without [tzinfo], candidates that all have one (or
    the other way round) are never taken as the end, however late they
    are. *)
Theorem end_unset_across_zone_kinds {uni : Unicode} {dates : DateLibs}
    {parser : Html} (html : str) c_pre T1 rest d1 :
  script_candidates (scripts (BeautifulSoup html)) = c_pre ++ T1 :: rest →
  Forall (λ c, dp_parse false c = None) c_pre →
  dp_parse false T1 = Some d1 →
  Forall (λ c, ∀ d, dp_parse false c = Some d →
                    ¬ (tzinfo d = None ↔ tzinfo d1 = None)) rest →
  start (parse_event_page html) = Some d1 ∧
  end_ (parse_event_page html) = None.
Proof.
  intros Hcs Hpre HT1 Hrest. unfold parse_event_page.
  rewrite start_parse_soup, end_parse_soup. unfold scan_scripts.
  rewrite scan_scripts_candidates, Hcs.
  rewrite (scan_candidates_start_only c_pre T1 rest d1); [done..|].
  eapply Forall_impl; [exact Hrest|].
  intros c Hc d Hd. specialize (Hc d Hd). apply dt_ge_raises in Hc. congruence.
Qed.

Lemma end_unset_across_zone_kinds_mixed :
  let r := parse_event_page (uni := ascii_unicode) (dates := iso_dates)
             (parser := script_page txt_mixed_zones)
             (script_html txt_mixed_zones) in
  start r = Some (at_2024_05_01 10) ∧ end_ r = None.
Proof.
  apply (end_unset_across_zone_kinds (uni := ascii_unicode)
           (dates := iso_dates) (parser := script_page txt_mixed_zones)
           (script_html txt_mixed_zones)
           [] (codes "2024-05-01T10:00:00") [codes "2024-05-01T18:00:00Z"]).
  - vm_compute. reflexivity.
  - constructor.
  - vm_compute. reflexivity.
  - constructor; [|constructor].
    intros d Hd. vm_compute in Hd. injection Hd as <-.
    intros [_ Hno]. by specialize (Hno eq_refl).
Defined.

(** ** The timestamp pattern: what a match is *)

Section IsoFacts.
Context {uni : Unicode}.

Lemma digits_Some k s r :
digits k s = Some r → ∃ ds, s = ds ++ r ∧ digit_field k ds.
Proof.
revert s. induction k as [|k IH]; intros s; simpl.
- intros [= ->]. exists []. by repeat split.
- destruct s as [|c s]; [done|].
  destruct (isdigit c) eqn:Hc; [|done].
  intros (ds & -> & Hlen & Hall)%IH.
  exists (c :: ds). repeat split; [by rewrite <-Hlen|by constructor].
Qed.

Lemma offset_pattern_Some s r :
offset_pattern s = Some r →
∃ sign hh mm,
  (sign = ch "+" ∨ sign = ch "-") ∧ digit_field 2 hh ∧ digit_field 2 mm ∧
  (s = sign :: hh ++ ch ":" :: mm ++ r ∨ s = sign :: hh ++ mm ++ r).
Proof.
unfold offset_pattern.
intros (r1 & Hsign & (r2 & Hhh & Hmm)%bind_Some)%bind_Some.
assert (∃ sign, (sign = ch "+" ∨ sign = ch "-") ∧ s = sign :: r1)
  as (sign & Hsg & ->).
{ unfold orelse in Hsign.
  destruct (lit (ch "+") s) as [r0|] eqn:Hplus.
  - injection Hsign as ->. apply lit_Some in Hplus. eauto.
  - apply lit_Some in Hsign. eauto. }
apply digits_Some in Hhh as (hh & -> & Hhh).
unfold orelse in Hmm.
destruct (lit (ch ":") r2 ≫= digits 2) as [r3|] eqn:Hcolon.
- injection Hmm as ->.
  apply bind_Some in Hcolon as (r2' & Hlit & Hcolon).
  apply lit_Some in Hlit as ->.
  apply digits_Some in Hcolon as (mm & -> & Hmm).
  exists sign, hh, mm. split_and!; [done..|]. by left.
- apply digits_Some in Hmm as (mm & -> & Hmm).
  exists sign, hh, mm. split_and!; [done..|]. by right.
Qed.

Lemma zone_suffix_split r :
∃ z, r = z ++ default r (orelse (offset_pattern r) (lit (ch "Z") r)) ∧
     zone_suffix z.
Proof.
destruct (offset_pattern r) as [r'|] eqn:Hoff.
- cbn [orelse default from_option].
  apply offset_pattern_Some in Hoff
    as (sign & hh & mm & Hsg & Hhh & Hmm & [-> | ->]).
  + exists (sign :: hh ++ ch ":" :: mm). split.
    * simpl. by rewrite <-!(assoc_L (++)).
    * right. right. exists sign, hh, mm. by eauto 10.
  + exists (sign :: hh ++ mm). split.
    * simpl. by rewrite <-!(assoc_L (++)).
    * right. right. exists sign, hh, mm. by eauto 10.
- destruct (lit (ch "Z") r) as [r'|] eqn:HZ; cbn [orelse default from_option].
  + apply lit_Some in HZ as ->. exists [ch "Z"]. split; [done|].
    right. by left.
  + exists []. split; [done|]. by left.
Qed.

(** A match of the timestamp pattern at the front of a text. *)
Lemma iso_pattern_Some s n g :
iso_pattern s = Some (n, g) →
iso_shaped g ∧ n = length g ∧ ∃ rest, s = g ++ rest.
Proof.
unfold iso_pattern.
intros (r0 & (y & -> & Hy)%digits_Some &
  (r1 & ->%lit_Some &
  (r2 & (mo & -> & Hmo)%digits_Some &
  (r3 & ->%lit_Some &
  (r4 & (d & -> & Hd)%digits_Some &
  (r5 & ->%lit_Some &
  (r6 & (h & -> & Hh)%digits_Some &
  (r7 & ->%lit_Some &
  (r8 & (mi & -> & Hmi)%digits_Some &
  (r9 & ->%lit_Some &
  (r10 & (se & -> & Hse)%digits_Some & Hres)
  %bind_Some)%bind_Some)%bind_Some)%bind_Some)%bind_Some)%bind_Some)
  %bind_Some)%bind_Some)%bind_Some)%bind_Some)%bind_Some.
destruct (zone_suffix_split r10) as (z & Hz & Hzone).
set (r' := default r10 (orelse (offset_pattern r10) (lit (ch "Z") r10))) in *.
cbv zeta in Hres.
set (c := y ++ ch "-" :: mo ++ ch "-" :: d ++ ch "T" :: h ++ ch ":" :: mi
          ++ ch ":" :: se ++ z).
assert (Hs : y ++ ch "-" :: mo ++ ch "-" :: d ++ ch "T" :: h ++ ch ":" :: mi
             ++ ch ":" :: se ++ r10 = c ++ r').
{ unfold c. rewrite Hz at 1.
  repeat (rewrite <-?(assoc_L (++)); simpl). done. }
rewrite Hs in Hres |- *.
assert (Hn : length (c ++ r') - length r' = length c).
{ rewrite length_app. lia. }
rewrite Hn, take_app_length in Hres. injection Hres as <- <-.
split_and!; [|done|by exists r'].
exists y, mo, d, h, mi, se, z. by split_and!.
Qed.
End IsoFacts.

(** X9. Every candidate the script scan hands to the date parser is a
    piece of the text of a script block that passed the test, of the shape
    [dddd-dd-ddTdd:dd:dd] followed by nothing, by [Z] or by a signed offset
    [dd:dd] or [dddd]: 19, 20, 24 or 25 characters. *)
Theorem script_candidates_iso_shaped {uni : Unicode} {dates : DateLibs}
    (blocks : list ScriptTag) (c : str) :
  c ∈ script_candidates blocks →
  iso_shaped c ∧
  (length c = 19 ∨ length c = 20 ∨ length c = 24 ∨ length c = 25) ∧
  ∃ script before after,
    script ∈ blocks ∧ mentions_event (script_txt script) = true ∧
    script_txt script = before ++ c ++ after.
Proof.
  unfold script_candidates. intros (script & Hc & Hscript)%list_elem_of_bind.
  destruct (mentions_event (script_txt script)) eqn:Hev;
    [|by apply elem_of_nil in Hc].
  apply finditer_from_elem in Hc as (before & at_ & n & Htxt & Hm).
  apply iso_pattern_Some in Hm as (Hshape & _ & rest & ->).
  split_and!; [done| |by exists script, before, rest].
  destruct Hshape as (y & mo & d & h & mi & se & z & -> &
    [Hy _] & [Hmo _] & [Hd _] & [Hh _] & [Hmi _] & [Hse _] & Hz).
  repeat (rewrite length_app; simpl). rewrite Hy, Hmo, Hd, Hh, Hmi, Hse.
  destruct Hz as [->|[->|(sign & hh & mm & _ & [Hhh _] & [Hmm _] & [->| ->])]];
    simpl; repeat (rewrite length_app; simpl); rewrite ?Hhh, ?Hmm; lia.
Qed.

Lemma script_candidates_iso_shaped_mixed_zones :
  iso_shaped (uni := ascii_unicode) (codes "2024-05-01T18:00:00Z").
Proof.
  apply (script_candidates_iso_shaped (uni := ascii_unicode)
           (dates := iso_dates) (scripts (script_soup txt_mixed_zones))).
  vm_compute. apply list_elem_of_In. right. left. reflexivity.
Defined.

(** ** Further properties of the pipeline *)

(** X10. The capped working set is a prefix of the extractor's list and
    holds as many identifiers as the listing has distinct ones, up to 20:
    a listing with fewer than 20 distinct identifiers is kept whole, and one
    without links gives the empty set. *)
Theorem cap_event_ids_prefix {uni : Unicode} (html : str) :
  cap_event_ids (extract_event_ids html) `prefix_of` extract_event_ids html ∧
  length (cap_event_ids (extract_event_ids html))
  = 20 `min` size (list_to_set (finditer events_pattern html) : gset str) ∧
  (size (list_to_set (finditer events_pattern html) : gset str) ≤ 20 →
   cap_event_ids (extract_event_ids html) = extract_event_ids html) ∧
  (finditer events_pattern html = [] →
   cap_event_ids (extract_event_ids html) = []).
Proof.
  unfold cap_event_ids, extract_event_ids.
  rewrite (unique_NoDup (unique _)) by apply NoDup_unique. split_and!.
  - apply prefix_take.
  - by rewrite length_take, length_unique.
  - intros Hsize. apply take_ge. by rewrite length_unique.
  - by intros ->.
Qed.

Lemma cap_event_ids_prefix_aba :
  cap_event_ids (extract_event_ids (uni := ascii_unicode) listing_aba)
  = extract_event_ids (uni := ascii_unicode) listing_aba.
Proof.
  apply (proj1 (proj2 (proj2
    (cap_event_ids_prefix (uni := ascii_unicode) listing_aba)))).
  vm_compute. lia.
Defined.

Section PipelineMoreFacts.
Context {uni : Unicode} {dates : DateLibs} {parser : Html} {browser : Browser}.

(** The record of an identifier: what the parser reads from the page shown
  after the navigation to the address of the identifier, with that
  address filled in when the page states none. *)
Lemma main_loop_records event_ids page results page' rs :
main_loop page event_ids results = Some (page', rs) →
∃ new, rs = results ++ new ∧
  Forall2 (λ eid r, ∃ q q',
             goto (event_url eid) q = Some q' ∧
             r = if truthy (url (parse_event_page (content q')))
                 then parse_event_page (content q')
                 else set_url (event_url eid)
                        (parse_event_page (content q')))
          event_ids new.
Proof.
revert page results.
induction event_ids as [|eid ids IH]; intros page results; simpl.
- intros [= <- <-]. exists []. by rewrite (right_id_L [] (++)).
- destruct (visit page eid) as [[p r]|] eqn:Hv; simpl; [|done].
  intros (new & -> & Hnew)%IH. exists (r :: new).
  split; [by rewrite <-(assoc_L (++))|].
  constructor; [|done].
  apply visit_record in Hv as (Hgoto & ->). by exists page, p.
Qed.

Lemma collect_records page results :
collect page = Some results →
∃ p, goto EVENTS_URL page = Some p ∧
  Forall2 (λ eid r, ∃ q q',
             goto (event_url eid) q = Some q' ∧
             r = if truthy (url (parse_event_page (content q')))
                 then parse_event_page (content q')
                 else set_url (event_url eid)
                        (parse_event_page (content q')))
    (cap_event_ids (extract_event_ids
       (content (mouse_wheel (mouse_wheel (mouse_wheel p))))))
    results.
Proof.
unfold collect. destruct (goto EVENTS_URL page) as [p|]; simpl; [|done].
destruct (main_loop _ _ []) as [[p' rs]|] eqn:Hloop; simpl; [|done].
intros [= <-]. exists p. split; [done|].
by apply main_loop_records in Hloop as (new & -> & Hnew).
Qed.

(** The pages of the loop: each identifier is looked up from the page the
  identifier before it left, the first one from the listing. *)
Lemma main_loop_pages event_ids page results page' rs :
main_loop page event_ids results = Some (page', rs) →
∃ pages new, rs = results ++ new ∧
  length pages = length event_ids ∧ length new = length event_ids ∧
  ∀ i eid, event_ids !! i = Some eid →
    ∃ q q', (page :: pages) !! i = Some q ∧ pages !! i = Some q' ∧
      goto (event_url eid) q = Some q' ∧
      new !! i
      = Some (if truthy (url (parse_event_page (content q')))
              then parse_event_page (content q')
              else set_url (event_url eid)
                     (parse_event_page (content q'))).
Proof.
revert page results.
induction event_ids as [|eid ids IH]; intros page results; simpl.
- intros [= <- <-]. exists [], []. by rewrite (right_id_L [] (++)).
- destruct (visit page eid) as [[p r]|] eqn:Hv; simpl; [|done].
  intros (pages & new & -> & Hlp & Hln & Hall)%IH.
  exists (p :: pages), (r :: new).
  split_and!; [by rewrite <-(assoc_L (++))|by simpl; f_equal..|].
  apply visit_record in Hv as (Hgoto & ->).
  intros [|i] eid'; simpl.
  + intros [= <-]. by exists page, p.
  + intros Heid. apply (Hall i eid' Heid).
Qed.

Lemma length_cap_event_ids ids : length (cap_event_ids ids) ≤ 20.
Proof. unfold cap_event_ids. rewrite length_take. lia. Qed.

Lemma ensure_aware_tzinfo dt : is_Some (tzinfo (ensure_aware dt)).
Proof. unfold ensure_aware. by destruct (tzinfo dt) eqn:Htz; rewrite ?Htz. Qed.
End PipelineMoreFacts.

(** X11. A run that collects its records has one record for each
    identifier of the capped working set, in that order, so at most 20.
    The page of an identifier is the one shown after the navigation to the
    address built from that identifier, started from the page of the
    identifier before it, and from the listing for the first; the record
    is what the parser reads from that page, with that address as its
    address when the page states none.  When the run returns, the builder
    has added at most as many events. *)
Theorem collect_one_record_per_id {uni : Unicode} {dates : DateLibs}
    {parser : Html} {browser : Browser} (page : Page)
    (results : list EventRecord) :
  collect page = Some results →
  (∃ p pages, goto EVENTS_URL page = Some p ∧
     length pages = length (working_set p) ∧
     length results = length (working_set p) ∧
     ∀ i eid, working_set p !! i = Some eid →
       ∃ q q',
         (mouse_wheel (mouse_wheel (mouse_wheel p)) :: pages) !! i = Some q ∧
         pages !! i = Some q' ∧
         goto (event_url eid) q = Some q' ∧
         results !! i
         = Some (if truthy (url (parse_event_page (content q')))
                 then parse_event_page (content q')
                 else set_url (event_url eid)
                        (parse_event_page (content q')))) ∧
  length results ≤ 20 ∧
  (∀ clock evs, main clock page = Some evs →
                length evs ≤ length results).
Proof.
  intros Hc. destruct (collect_records _ _ Hc) as (p & Hp & Hall).
  split_and!.
  - exists p. unfold collect in Hc. rewrite Hp in Hc. simpl in Hc.
    destruct (main_loop _ _ []) as [[p' rs]|] eqn:Hloop; simpl in Hc;
      [|done].
    injection Hc as ->.
    apply main_loop_pages in Hloop
      as (pages & new & Hnew & Hlp & Hln & Hpages).
    simpl in Hnew. subst new. by exists pages.
  - rewrite <-(Forall2_length _ _ _ Hall). apply length_cap_event_ids.
  - intros clock evs. unfold main. rewrite Hc. simpl.
    intros ->%build_ics_from_length. apply length_filter.
Qed.

Lemma collect_one_record_per_id_rides :
  ∃ results,
    collect (uni := ascii_unicode) (dates := iso_dates)
      (parser := rides_pages) (browser := site_browser rides_site) []
    = Some results ∧ length results ≤ 20.
Proof.
  destruct (collect (uni := ascii_unicode) (dates := iso_dates)
    (parser := rides_pages) (browser := site_browser rides_site) [])
    as [results|] eqn:Hc; [|vm_compute in Hc; discriminate].
  exists results. split; [done|].
  by destruct (collect_one_record_per_id (uni := ascii_unicode)
    (dates := iso_dates) (parser := rides_pages)
    (browser := site_browser rides_site) [] results Hc) as (_ & Hlen & _).
Defined.

(** X12. Every event of the calendar a run writes has a begin, and the
    begin, and the end when there is one, have a [tzinfo]. *)
Theorem main_events_zone_aware {uni : Unicode} {dates : DateLibs}
    {parser : Html} {browser : Browser} (clock : nat → Z) (page : Page)
    (evs : list Event) :
  main clock page = Some evs →
  Forall (λ ev, (∃ dt, begin ev = Some dt ∧ is_Some (tzinfo dt)) ∧
                (∀ dt, ev_end ev = Some dt → is_Some (tzinfo dt))) evs.
Proof.
  unfold main. destruct (collect page) as [results|]; simpl; [|done].
  intros Hb%build_ics_from_Forall2.
  eapply Forall2_Forall_r; [exact Hb|].
  apply Forall_forall. intros r Hr ev (now & Hev).
  apply list_elem_of_filter in Hr as [[s Hs] _].
  apply build_event_Some in Hev as (_ & -> & -> & _).
  rewrite Hs. simpl. split.
  - eexists. split; [done|]. apply ensure_aware_tzinfo.
  - destruct (end_ r) as [e|]; simpl; [|done].
    intros dt [= <-]. apply ensure_aware_tzinfo.
Qed.

Lemma main_events_zone_aware_rides :
  ∃ evs,
    main (uni := ascii_unicode) (dates := iso_dates)
      (parser := rides_pages) (browser := site_browser rides_site)
      (λ _, 1700000000%Z) [] = Some evs ∧
    Forall (λ ev, (∃ dt, begin ev = Some dt ∧ is_Some (tzinfo dt)) ∧
                  (∀ dt, ev_end ev = Some dt → is_Some (tzinfo dt))) evs.
Proof.
  destruct (main (uni := ascii_unicode) (dates := iso_dates)
    (parser := rides_pages) (browser := site_browser rides_site)
    (λ _, 1700000000%Z) []) as [evs|] eqn:Hmain;
    [|vm_compute in Hmain; discriminate].
  exists evs. split; [done|].
  by apply (main_events_zone_aware (uni := ascii_unicode) (dates := iso_dates)
    (parser := rides_pages) (browser := site_browser rides_site)
    (λ _, 1700000000%Z) []).
Defined.

(** ** Further properties of the calendar builder *)

Lemma N_of_ascii_inj : Inj (=) (=) N_of_ascii.
Proof.
  intros a b Hab.
  rewrite <-(ascii_N_embedding a), <-(ascii_N_embedding b). by rewrite Hab.
Qed.

Lemma codes_inj : Inj (=) (=) codes.
Proof.
  intros s1 s2 Hs. unfold codes in Hs.
  apply (list_fmap_eq_inj _ N_of_ascii_inj) in Hs.
  rewrite <-(string_of_list_ascii_of_string s1),
    <-(string_of_list_ascii_of_string s2). by rewrite Hs.
Qed.

(** X13. When the builder makes events of two records, the identifier of
    an event is the address of its record followed by the suffix, when the
    record has an address that is not empty: records with different
    addresses get different identifiers.  Without an address the identifier
    is made from the page name and the clock, in whole seconds: two such
    records get the same identifier exactly when they are built within the
    same second. *)
Theorem build_event_uid {dates : DateLibs} (now1 now2 : Z)
    (e1 e2 : EventRecord) (ev1 ev2 : Event) :
  build_event now1 e1 = Some ev1 →
  build_event now2 e2 = Some ev2 →
  (∀ u, url e1 = Some u → u ≠ [] →
     uid ev1 = u ++ codes "@streamwood-biking") ∧
  (truthy (url e1) = true → truthy (url e2) = true →
   (uid ev1 = uid ev2 ↔ url e1 = url e2)) ∧
  (truthy (url e1) = false →
   uid ev1 = codes "StreamwoodBiking-" ++ codes (pretty now1)
             ++ codes "@streamwood-biking") ∧
  (truthy (url e1) = false → truthy (url e2) = false →
   (uid ev1 = uid ev2 ↔ now1 = now2)).
Proof.
  intros (_ & _ & _ & _ & _ & _ & Hu1 & _)%build_event_Some
         (_ & _ & _ & _ & _ & _ & Hu2 & _)%build_event_Some.
  rewrite Hu1, Hu2. clear Hu1 Hu2.
  assert (Hurl : ∀ e now, truthy (url e) = true →
    ∃ u, url e = Some u ∧ str_or (url e) (time_uid now) = u).
  { intros e now. unfold str_or, truthy.
    destruct (url e) as [[|c u]|]; [done| |done]. by exists (c :: u). }
  assert (Hfallback : ∀ e now, truthy (url e) = false →
    str_or (url e) (time_uid now) ++ codes "@streamwood-biking"
    = codes "StreamwoodBiking-" ++ codes (pretty now)
      ++ codes "@streamwood-biking").
  { intros e now. unfold str_or, truthy.
    by destruct (url e) as [[|c u]|]. }
  split_and!.
  - intros u Hu Hne. unfold str_or. rewrite Hu. by destruct u.
  - intros H1 H2.
    destruct (Hurl e1 now1 H1) as (u1 & Hu1 & ->).
    destruct (Hurl e2 now2 H2) as (u2 & Hu2 & ->).
    rewrite Hu1, Hu2. split.
    + by intros ->%(inj (.++ _)).
    + by intros [= ->].
  - apply Hfallback.
  - intros H1 H2. rewrite !Hfallback by done. split; [|by intros ->].
    intros Heq%(inj (_ ++.))%(inj (.++ _))%codes_inj.
    by apply (inj pretty) in Heq.
Qed.

Lemma build_event_uid_records :
  ∃ ev1 ev2,
    build_event (dates := iso_dates) 1700000000 record_a = Some ev1 ∧
    build_event (dates := iso_dates) 1700000000 record_c = Some ev2 ∧
    uid ev1 = uid ev2.
Proof.
  destruct (build_event (dates := iso_dates) 1700000000 record_a)
    as [ev1|] eqn:H1; [|vm_compute in H1; discriminate].
  destruct (build_event (dates := iso_dates) 1700000000 record_c)
    as [ev2|] eqn:H2; [|vm_compute in H2; discriminate].
  exists ev1, ev2. split_and!; [done..|].
  by apply (proj2 (proj2 (proj2 (build_event_uid (dates := iso_dates)
    1700000000 1700000000 record_a record_c ev1 ev2 H1 H2)))).
Defined.

(** ** The cookie header: properties *)

Lemma contains_singleton c s : contains [c] s = true ↔ c ∈ s.
Proof.
  induction s as [|d s IH]; simpl.
  - split; [done|]. by intros ?%elem_of_nil.
  - rewrite orb_true_iff, IH, elem_of_cons.
    destruct (decide (c = d)) as [->|Hne]; simpl.
    + split; [by left|]. intros _. left. by destruct s.
    + split; [intros [?|?]; [done|by right]|].
      intros [?|?]; [done|by right].
Qed.

Lemma lstrip_head s c : head (lstrip s) = Some c → isspace c = false.
Proof.
  induction s as [|d s IH]; simpl; [done|].
  destruct (isspace d) eqn:Hd; [done|]. by intros [= <-].
Qed.

Lemma lstrip_elem s c : c ∈ s → isspace c = false → c ∈ lstrip s.
Proof.
  intros Hc Hsp. induction s as [|d s IH]; simpl; [done|].
  destruct (isspace d) eqn:Hd; [|done].
  apply elem_of_cons in Hc as [->|Hc]; [congruence|by apply IH].
Qed.

Lemma lstrip_subseteq s c : c ∈ lstrip s → c ∈ s.
Proof.
  induction s as [|d s IH]; simpl; [done|].
  destruct (isspace d); [|done]. intros ?%IH. by right.
Qed.

Lemma lstrip_pad pad s :
  Forall (λ c, isspace c = true) pad → lstrip (pad ++ s) = lstrip s.
Proof. induction 1 as [|c pad Hc _ IH]; simpl; [done|]. by rewrite Hc. Qed.

Lemma lstrip_id s :
  (∀ c, head s = Some c → isspace c = false) → lstrip s = s.
Proof. destruct s as [|c s]; simpl; [done|]. intros Hs. by rewrite Hs. Qed.

Lemma rstrip_cons_nonspace c s :
  isspace c = false → rstrip (c :: s) = c :: rstrip s.
Proof. intros Hc. simpl. destruct (rstrip s); by rewrite ?Hc. Qed.

Lemma rstrip_spaces pad :
  Forall (λ c, isspace c = true) pad → rstrip pad = [].
Proof.
  induction 1 as [|c pad Hc _ IH]; simpl; [done|]. by rewrite IH, Hc.
Qed.

Lemma rstrip_app_nonspace a c b :
  isspace c = false → rstrip (a ++ c :: b) = a ++ c :: rstrip b.
Proof.
  intros Hc. induction a as [|d a IH]; simpl.
  - destruct (rstrip b); by rewrite ?Hc.
  - by rewrite IH; destruct a.
Qed.

Lemma rstrip_elem s c : c ∈ s → isspace c = false → c ∈ rstrip s.
Proof.
  intros (a & b & ->)%list_elem_of_split Hc.
  rewrite rstrip_app_nonspace by done.
  apply elem_of_app. right. by left.
Qed.

Lemma rstrip_subseteq s c : c ∈ rstrip s → c ∈ s.
Proof.
  revert c. induction s as [|d s IH]; intros c; simpl; [done|].
  destruct (rstrip s) as [|e r] eqn:Hr.
  - destruct (isspace d); [by intros ?%elem_of_nil|].
    intros ->%list_elem_of_singleton. by left.
  - intros [->|Hc]%elem_of_cons; [by left|]. right. by apply IH.
Qed.

Lemma rstrip_last s c : last (rstrip s) = Some c → isspace c = false.
Proof.
  induction s as [|d s IH]; simpl; [done|].
  destruct (rstrip s) as [|e r] eqn:Hr.
  - destruct (isspace d) eqn:Hd; [done|]. by intros [= <-].
  - intros Hl. apply IH. by destruct r.
Qed.

Lemma rstrip_head s c : head (rstrip s) = Some c → head s = Some c.
Proof.
  destruct s as [|d s]; simpl; [done|].
  destruct (rstrip s); [|done]. by destruct (isspace d).
Qed.

Lemma rstrip_pad s pad :
  Forall (λ c, isspace c = true) pad → rstrip (s ++ pad) = rstrip s.
Proof.
  intros Hpad. induction s as [|d s IH]; simpl.
  - by apply rstrip_spaces.
  - by rewrite IH.
Qed.

Lemma rstrip_id s :
  (∀ c, last s = Some c → isspace c = false) → rstrip s = s.
Proof.
  induction s as [|d s IH]; simpl; [done|]. intros Hlast.
  destruct s as [|e s].
  - simpl. by rewrite Hlast.
  - rewrite IH by (intros c Hc; by apply Hlast). done.
Qed.

Lemma strip_stripped s : stripped (strip s).
Proof.
  split; intros c Hc.
  - by apply rstrip_head, lstrip_head in Hc.
  - by apply rstrip_last in Hc.
Qed.

Lemma strip_id s : stripped s → strip s = s.
Proof. intros [Hh Hl]. unfold strip. by rewrite lstrip_id, rstrip_id. Qed.

Lemma strip_elem s c : c ∈ s → isspace c = false → c ∈ strip s.
Proof. intros Hc Hsp. apply rstrip_elem; [by apply lstrip_elem|done]. Qed.

Lemma strip_subseteq s c : c ∈ strip s → c ∈ s.
Proof. by intros ?%rstrip_subseteq%lstrip_subseteq. Qed.

Lemma split1_elem sep s :
  sep ∈ s → ∃ a b, split1 sep s = [a; b] ∧ s = a ++ sep :: b ∧ sep ∉ a.
Proof.
  induction s as [|c s IH]; [by intros ?%elem_of_nil|]. simpl.
  destruct (decide (c = sep)) as [->|Hne].
  - intros _. exists [], s. split_and!; [done..|]. by intros ?%elem_of_nil.
  - intros [?|Hs]%elem_of_cons; [done|].
    destruct (IH Hs) as (a & b & -> & -> & Ha).
    exists (c :: a), b. split_and!; [done..|].
    intros [Heq|?]%elem_of_cons; [by destruct Hne|done].
Qed.

Lemma split1_first sep a b :
  sep ∉ a → split1 sep (a ++ sep :: b) = [a; b].
Proof.
  induction a as [|c a IH]; simpl; intros Ha.
  - by rewrite decide_True.
  - rewrite decide_False by (intros ->; apply Ha; by left).
    rewrite IH; [done|]. intros ?. apply Ha. by right.
Qed.

Lemma split_no_sep sep x : sep ∉ x → split sep x = [x].
Proof.
  induction x as [|c x IH]; simpl; intros Hx; [done|].
  rewrite decide_False by (intros ->; apply Hx; by left).
  rewrite IH; [done|]. intros ?. apply Hx. by right.
Qed.

Lemma split_app_sep sep x y :
  sep ∉ x → split sep (x ++ sep :: y) = x :: split sep y.
Proof.
  induction x as [|c x IH]; simpl; intros Hx.
  - by rewrite decide_True.
  - rewrite decide_False by (intros ->; apply Hx; by left).
    rewrite IH; [done|]. intros ?. apply Hx. by right.
Qed.

Lemma split_join sep l :
  l ≠ [] → Forall (λ x, sep ∉ x) l → split sep (join sep l) = l.
Proof.
  intros Hne Hall. induction Hall as [|x l Hx Hl IH]; [done|].
  simpl. destruct l as [|y l].
  - by apply split_no_sep.
  - rewrite split_app_sep by done. by rewrite IH.
Qed.

Lemma make_cookie_piece piece :
  ch "=" ∈ piece →
  ∃ a b, strip piece = a ++ ch "=" :: b ∧ (ch "=" ∉ a) ∧
    make_cookie (strip piece)
    = Some {| c_name := strip a; c_value := strip b;
              c_domain := codes ".facebook.com"; c_path := codes "/";
              c_httpOnly := false; c_secure := true |}.
Proof.
  intros Heq.
  destruct (split1_elem (ch "=") (strip piece)) as (a & b & Hsplit & Hs & Ha).
  { by apply strip_elem. }
  exists a, b. split_and!; [done..|]. unfold make_cookie. by rewrite Hsplit.
Qed.

Lemma header_pieces_filter header :
  header_pieces header
  = strip <$> filter (λ c, ch "=" ∈ c) (split (ch ";") header).
Proof.
  unfold header_pieces. f_equal. apply list_filter_iff.
  intros c. apply contains_singleton.
Qed.

Lemma mapM_make_cookie pieces :
  Forall (λ c, ch "=" ∈ c) pieces →
  ∃ cookies, mapM make_cookie (strip <$> pieces) = Some cookies ∧
    Forall2 (λ piece ck, ∃ a b,
               strip piece = a ++ ch "=" :: b ∧ (ch "=" ∉ a) ∧
               ck = {| c_name := strip a; c_value := strip b;
                       c_domain := codes ".facebook.com";
                       c_path := codes "/";
                       c_httpOnly := false; c_secure := true |})
            pieces cookies.
Proof.
  induction 1 as [|piece l Hp _ (cookies & Hm & Hall)].
  - exists []. by split.
  - destruct (make_cookie_piece piece Hp) as (a & b & Hs & Ha & Hmk).
    eexists (_ :: cookies). split.
    + rewrite fmap_cons. cbn [mapM]. rewrite Hmk, Hm. reflexivity.
    + constructor; [|done]. by exists a, b.
Qed.

Lemma parse_cookies_made header :
  ∃ cookies, parse_cookies header = Some cookies ∧
    Forall2 (λ piece ck, ∃ a b,
               strip piece = a ++ ch "=" :: b ∧ (ch "=" ∉ a) ∧
               ck = {| c_name := strip a; c_value := strip b;
                       c_domain := codes ".facebook.com";
                       c_path := codes "/";
                       c_httpOnly := false; c_secure := true |})
            (filter (λ c, ch "=" ∈ c) (split (ch ";") header)) cookies.
Proof.
  unfold parse_cookies. rewrite header_pieces_filter.
  apply mapM_make_cookie, Forall_forall.
  by intros c [? _]%list_elem_of_filter.
Qed.

(** X14. Reading the cookie header never raises: every piece between
    semicolons that holds an equals sign gives one cookie, in the order of
    the header, and the other pieces give none.  The name of a cookie is
    what stands before the first equals sign of its piece and the value
    what stands after it, both without white space at their ends; the name
    holds no equals sign; every cookie is for [.facebook.com], path [/],
    secure and not HTTP-only. *)
Theorem added_cookies_made (FB_COOKIE : option str) :
  ∃ cookies, added_cookies FB_COOKIE = Some cookies ∧
    Forall2 (λ piece ck, ∃ a b,
               strip piece = a ++ ch "=" :: b ∧ (ch "=" ∉ a) ∧
               c_name ck = strip a ∧ c_value ck = strip b)
            (filter (λ c, ch "=" ∈ c)
                    (split (ch ";") (cookie_header FB_COOKIE)))
            cookies ∧
    Forall (λ ck, (ch "=" ∉ c_name ck) ∧
                  stripped (c_name ck) ∧ stripped (c_value ck) ∧
                  c_domain ck = codes ".facebook.com" ∧
                  c_path ck = codes "/" ∧
                  c_httpOnly ck = false ∧ c_secure ck = true) cookies.
Proof.
  unfold added_cookies.
  destruct (cookie_header FB_COOKIE) as [|c header] eqn:Hh.
  - exists []. simpl. rewrite filter_cons_False, filter_nil
      by (by intros ?%elem_of_nil).
    by split_and!.
  - cbn [nonempty].
    destruct (parse_cookies_made (c :: header)) as (cookies & -> & Hall).
    exists cookies. split_and!; [done| |].
    + eapply Forall2_impl; [exact Hall|].
      intros piece ck (a & b & Hs & Ha & ->). by exists a, b.
    + eapply Forall2_Forall_r; [exact Hall|].
      apply Forall_forall. intros piece _ ck (a & b & Hs & Ha & ->). simpl.
      split_and!; [|apply strip_stripped..|done|done|done|done].
      by intros ?%strip_subseteq.
Qed.

Lemma filter_all {A} (P : A → Prop) `{∀ x, Decision (P x)} (l : list A) :
  Forall P l → filter P l = l.
Proof.
  induction 1 as [|x l Hx _ IH]; [done|].
  by rewrite filter_cons_True, IH.
Qed.

Lemma isspace_eq : isspace (ch "=") = false.
Proof. reflexivity. Qed.

Lemma spaces_no_semicolon pad :
  Forall (λ c, isspace c = true) pad → ch ";" ∉ pad.
Proof.
  intros Hall Hin. rewrite Forall_forall in Hall.
  by specialize (Hall _ Hin).
Qed.

Lemma piece_text_no_semicolon p :
  well_formed_piece p → ch ";" ∉ piece_text p.
Proof.
  intros (Hl & Hr & _ & _ & _ & Hn & Hv). unfold piece_text.
  rewrite !elem_of_app, elem_of_cons, elem_of_app.
  intros [H|[H|[H|[H|H]]]].
  - by apply (spaces_no_semicolon _ Hl).
  - done.
  - discriminate H.
  - done.
  - by apply (spaces_no_semicolon _ Hr).
Qed.

Lemma piece_text_eq p : ch "=" ∈ piece_text p.
Proof.
  unfold piece_text. rewrite !elem_of_app, elem_of_cons. right. right. by left.
Qed.

Lemma strip_piece_text p :
  well_formed_piece p →
  strip (piece_text p) = piece_name p ++ ch "=" :: piece_value p.
Proof.
  intros (Hl & Hr & [Hnh _] & [_ Hvl] & _). unfold strip, piece_text.
  rewrite lstrip_pad by done.
  rewrite lstrip_id.
  - rewrite rstrip_app_nonspace by done. f_equal. f_equal.
    rewrite rstrip_pad by done. by apply rstrip_id.
  - intros c. destruct (piece_name p) as [|d n]; simpl.
    + by intros [= <-].
    + intros [= <-]. by apply Hnh.
Qed.

Lemma make_cookie_piece_text p :
  well_formed_piece p →
  make_cookie (strip (piece_text p)) = Some (piece_cookie p).
Proof.
  intros Hp. rewrite strip_piece_text by done.
  destruct Hp as (_ & _ & Hn & Hv & Heq & _).
  unfold make_cookie. rewrite split1_first by done.
  unfold piece_cookie. by rewrite !strip_id.
Qed.

(** X15. A header written as pieces [name=value] joined by semicolons,
    with any white space around each piece, reads back as those names and
    values, in order: the names hold no equals sign, names and values hold
    no semicolon and have no white space at their ends (a value may hold
    equals signs and inner spaces). *)
Theorem parse_cookies_pieces (pieces : list Piece) :
  Forall well_formed_piece pieces →
  parse_cookies (join (ch ";") (piece_text <$> pieces))
  = Some (piece_cookie <$> pieces).
Proof.
  intros Hall. unfold parse_cookies. rewrite header_pieces_filter.
  destruct pieces as [|p pieces].
  { reflexivity. }
  rewrite split_join; [|done|].
  - rewrite filter_all.
    + apply mapM_Some_2. rewrite <-list_fmap_compose.
      apply Forall2_fmap, Forall_Forall2_diag.
      eapply Forall_impl; [exact Hall|].
      intros q Hq. by apply make_cookie_piece_text.
    + apply Forall_forall. intros c (q & -> & _)%list_elem_of_fmap.
      apply piece_text_eq.
  - apply Forall_fmap. eapply Forall_impl; [exact Hall|].
    intros q Hq. by apply piece_text_no_semicolon.
Qed.

Lemma parse_cookies_pieces_example :
  parse_cookies (codes "  c_user=1000; xs=12:ab=cd ; datr=;sb=x y")
  = Some (piece_cookie <$> pieces_example).
Proof.
  apply (parse_cookies_pieces pieces_example).
  repeat constructor; try (intros c [= <-]; reflexivity);
    try (by intros [= <-]);
    try (apply (bool_decide_unpack _); vm_compute; exact I).
Defined.

(** ** The files of a run: properties *)

Lemma remove_file_delete (path : str) (fs : gmap str str) :
  remove_file path fs = delete path fs.
Proof.
  unfold remove_file. destruct (fs !! path) eqn:Hp; [done|].
  symmetry. by apply delete_id.
Qed.

Lemma append_lines_other (path : str) (l : list str) (fs : gmap str str)
    (other : str) :
  other ≠ path → append_lines path l fs !! other = fs !! other.
Proof.
  intros Hne. unfold append_lines. revert fs.
  induction l as [|x l IH]; intros fs; simpl; [done|].
  rewrite IH. unfold append_file. by rewrite lookup_insert_ne.
Qed.

Lemma append_lines_content (path : str) (l : list str) (fs : gmap str str) :
  l ≠ [] →
  append_lines path l fs !! path
  = Some (default [] (fs !! path) ++ lines_of l).
Proof.
  unfold append_lines. revert fs.
  induction l as [|x l IH]; intros fs Hne; [done|]. simpl.
  destruct l as [|y l].
  - simpl. unfold append_file. rewrite lookup_insert_eq.
    unfold lines_of. simpl. by rewrite (right_id_L [] (++)).
  - rewrite IH by done. unfold append_file at 1. rewrite lookup_insert_eq.
    simpl. unfold lines_of. simpl. by rewrite <-!(assoc_L (++)).
Qed.

Lemma append_lines_fresh (path : str) (l : list str) (fs : gmap str str) :
  l ≠ [] → fs !! path = None →
  append_lines path l fs !! path = Some (lines_of l).
Proof.
  intros Hl Hp. rewrite append_lines_content by done.
  unfold str in *. by rewrite Hp.
Qed.

Lemma append_lines_snoc (path : str) (l : list str) (x : str)
    (fs : gmap str str) :
  append_lines path (l ++ [x]) fs
  = append_file path (x ++ [10%N]) (append_lines path l fs).
Proof. unfold append_lines. by rewrite foldl_app. Qed.

Section FilesFacts.
Context {uni : Unicode} {dates : DateLibs} {parser : Html} {browser : Browser}
      {cal : CalendarText}.

(** The loop with its file does what the loop does, and has appended the
  addresses of the identifiers it reached: all of them, or those up to
  the one whose page did not load. *)
Lemma main_loop_files_run (page : Page) (ids : list str)
  (results : list EventRecord) (fs : gmap str str) :
(main_loop_files page ids results fs).2 = main_loop page ids results ∧
∃ n, n ≤ length ids ∧
  (main_loop_files page ids results fs).1
  = append_lines urls_path (event_url <$> take n ids) fs ∧
  (is_Some (main_loop page ids results) → n = length ids) ∧
  (main_loop page ids results = None → ∃ k, n = S k).
Proof.
revert page results fs.
induction ids as [|eid ids IH]; intros page results fs; simpl.
- split; [done|]. exists 0. split_and!; [done..|]. by intros [=].
- destruct (visit page eid) as [[p r]|] eqn:Hv; simpl.
  + destruct (IH p (results ++ [r])
      (append_file urls_path (event_url eid ++ [10%N]) fs))
      as (Hout & n & Hn & Hfs & Hsome & Hnone).
    split; [done|]. exists (S n). split_and!.
    * lia.
    * etrans; [exact Hfs|reflexivity].
    * intros Hs. by rewrite Hsome.
    * intros Hno. by exists n.
  + split; [done|]. exists 1. split_and!; [lia|done| |by exists 0].
    by intros [? [=]].
Qed.

Lemma main_files_main (clock : nat → Z) (page : Page) (fs : gmap str str) :
(main_files clock page fs).2 = main clock page.
Proof.
unfold main_files, main, collect.
destruct (goto EVENTS_URL page) as [p|]; simpl; [|done].
destruct (main_loop_files_run
  (mouse_wheel (mouse_wheel (mouse_wheel p)))
  (cap_event_ids (extract_event_ids
     (content (mouse_wheel (mouse_wheel (mouse_wheel p)))))) []
  (remove_file urls_path
     match cap_event_ids (extract_event_ids
             (content (mouse_wheel (mouse_wheel (mouse_wheel p))))) with
     | [] => fs
     | _ :: _ =>
         write_file ids_path
           (lines_of (cap_event_ids (extract_event_ids
              (content (mouse_wheel (mouse_wheel (mouse_wheel p)))))))
           fs
     end)) as (Hout & _).
destruct (main_loop_files _ _ _ _) as [fs' [[p' rs]|]]; simpl in *;
  rewrite <-Hout; simpl; [|done].
unfold build_ics_file. by destruct (build_ics clock (with_start rs)).
Qed.
End FilesFacts.

Lemma paths_distinct :
  ids_path ≠ urls_path ∧ ids_path ≠ ics_path ∧ ids_path ≠ index_path ∧
  urls_path ≠ ics_path ∧ urls_path ≠ index_path ∧ ics_path ≠ index_path.
Proof. vm_compute. split_and!; discriminate. Qed.

Section RunFacts.
Context {uni : Unicode} {dates : DateLibs} {parser : Html} {browser : Browser}
      {cal : CalendarText}.

(** The files before the loop: the list of identifiers written when there
  is one, the list of addresses removed. *)
Lemma files_before_loop (ids : list str) (fs : gmap str str) :
let fs0 := remove_file urls_path
             match ids with
             | [] => fs
             | _ :: _ => write_file ids_path (lines_of ids) fs
             end in
fs0 !! urls_path = None ∧
fs0 !! ids_path = match ids with
                  | [] => fs !! ids_path
                  | _ :: _ => Some (lines_of ids)
                  end ∧
(∀ other : str, other ≠ urls_path → other ≠ ids_path →
                fs0 !! other = fs !! other).
Proof.
destruct paths_distinct as (Hiu & _).
intros fs0. unfold fs0. rewrite remove_file_delete. split_and!.
- apply lookup_delete_eq.
- rewrite lookup_delete_ne by done.
  destruct ids; [done|]. unfold write_file. by rewrite lookup_insert_eq.
- intros other Hu Hi. rewrite lookup_delete_ne by done.
  destruct ids; [done|]. unfold write_file. by rewrite lookup_insert_ne.
Qed.

Lemma main_files_unfold (clock : nat → Z) (page p : Page)
  (fs : gmap str str) :
goto EVENTS_URL page = Some p →
main_files clock page fs
= match main_loop_files (mouse_wheel (mouse_wheel (mouse_wheel p)))
          (working_set p) []
          (remove_file urls_path
             match working_set p with
             | [] => fs
             | _ :: _ => write_file ids_path (lines_of (working_set p)) fs
             end) with
  | (fs1, None) => (fs1, None)
  | (fs1, Some (_, results)) =>
      match build_ics clock (with_start results) with
      | None => (fs1, None)
      | Some evs =>
          (create_index index_path
             (write_file ics_path (calendar_text evs) fs1),
           Some evs)
      end
  end.
Proof.
intros Hp. unfold main_files. rewrite Hp. unfold working_set.
destruct (main_loop_files _ _ _ _) as [fs1 [[p' rs]|]]; [|done].
unfold build_ics_file. by destruct (build_ics clock (with_start rs)).
Qed.
End RunFacts.

(** X16. The files take no part in what a run computes: whatever files it
    starts from, it ends with the events [main] gives, or ends without a
    calendar exactly when [main] does. *)
Theorem main_files_calendar {uni : Unicode} {dates : DateLibs}
    {parser : Html} {browser : Browser} {cal : CalendarText}
    (clock : nat → Z) (page : Page) (fs : gmap str str) :
  (main_files clock page fs).2 = main clock page.
Proof. apply main_files_main. Qed.

(** The files after a run that completes. *)
Lemma main_files_success {uni : Unicode} {dates : DateLibs}
    {parser : Html} {browser : Browser} {cal : CalendarText}
    (clock : nat → Z) (page : Page) (fs fs' : gmap str str)
    (evs : list Event) :
  main_files clock page fs = (fs', Some evs) →
  ∃ p, goto EVENTS_URL page = Some p ∧
    fs' !! ics_path = Some (calendar_text evs) ∧
    fs' !! index_path = Some index_html ∧
    fs' !! urls_path
    = match working_set p with
      | [] => None
      | _ :: _ => Some (lines_of (event_url <$> working_set p))
      end ∧
    fs' !! ids_path
    = match working_set p with
      | [] => fs !! ids_path
      | _ :: _ => Some (lines_of (working_set p))
      end ∧
    (∀ other : str,
       other ∉ [ids_path; urls_path; ics_path; index_path] →
       fs' !! other = fs !! other).
Proof.
  destruct paths_distinct as (Hiu & Hic & Hix & Huc & Hux & Hcx).
  intros Hrun.
  destruct (goto EVENTS_URL page) as [p|] eqn:Hp;
    [|unfold main_files in Hrun; by rewrite Hp in Hrun].
  exists p. split; [done|].
  rewrite (main_files_unfold _ _ p) in Hrun by done.
  pose proof (files_before_loop (working_set p) fs) as Hbefore.
  cbv zeta in Hbefore.
  set (fs0 := remove_file urls_path _) in *.
  destruct Hbefore as (Hu0 & Hi0 & Ho0).
  destruct (main_loop_files_run (mouse_wheel (mouse_wheel (mouse_wheel p)))
    (working_set p) [] fs0) as (Hout & n & Hn & Hfs & Hsome & _).
  clearbody fs0.
  destruct (main_loop_files _ _ _ _) as [fs1 [[p' rs]|]] eqn:Hloop;
    [|done].
  simpl in Hout, Hfs.
  destruct (build_ics clock (with_start rs)) as [evs0|]; [|done].
  injection Hrun as <- <-.
  rewrite Hsome in Hfs by (by rewrite <-Hout).
  rewrite firstn_all in Hfs. subst fs1.
  unfold create_index, write_file.
  split_and!.
  - by rewrite lookup_insert_ne, lookup_insert_eq.
  - by rewrite lookup_insert_eq.
  - rewrite !lookup_insert_ne by done.
    destruct (working_set p) as [|eid ids] eqn:Hws; [done|].
    by apply append_lines_fresh.
  - rewrite !lookup_insert_ne by done.
    by rewrite append_lines_other.
  - intros other Hother.
    rewrite !not_elem_of_cons in Hother.
    destruct Hother as (Hoi & Hou & Hoc & Hox & _).
    rewrite !lookup_insert_ne by done.
    rewrite append_lines_other by done. by apply Ho0.
Qed.

(** X17. After a run that completes (every page loaded and the builder
    did not raise), the calendar file holds
    the text of the events and the index file its fixed text; the list of
    addresses holds the address of every identifier of the working set, a
    line each and in order, and nothing of an earlier run (it is absent when
    the working set is empty); the list of identifiers holds the working
    set, a line each, but is left as it was when the working set is empty;
    no other file is touched. *)
Theorem main_files_written {uni : Unicode} {dates : DateLibs}
    {parser : Html} {browser : Browser} {cal : CalendarText}
    (clock : nat → Z) (page : Page) (fs fs' : gmap str str)
    (evs : list Event) :
  main_files clock page fs = (fs', Some evs) →
  ∃ p, goto EVENTS_URL page = Some p ∧
    fs' !! ics_path = Some (calendar_text evs) ∧
    fs' !! index_path = Some index_html ∧
    fs' !! urls_path
    = match working_set p with
      | [] => None
      | _ :: _ => Some (lines_of (event_url <$> working_set p))
      end ∧
    fs' !! ids_path
    = match working_set p with
      | [] => fs !! ids_path
      | _ :: _ => Some (lines_of (working_set p))
      end ∧
    (∀ other : str,
       other ∉ [ids_path; urls_path; ics_path; index_path] →
       fs' !! other = fs !! other).
Proof. apply main_files_success. Qed.

Lemma main_files_written_rides :
  ∃ fs' evs,
    main_files (uni := ascii_unicode) (dates := iso_dates)
      (parser := rides_pages) (browser := site_browser rides_site)
      (cal := uid_lines) (λ _, 1700000000%Z) [] old_files = (fs', Some evs) ∧
    fs' !! urls_path
    = Some (codes "https://m.facebook.com/events/111" ++ [10%N]
            ++ codes "https://m.facebook.com/events/222" ++ [10%N]
            ++ codes "https://m.facebook.com/events/333" ++ [10%N]).
Proof.
  destruct (main_files (uni := ascii_unicode) (dates := iso_dates)
    (parser := rides_pages) (browser := site_browser rides_site)
    (cal := uid_lines) (λ _, 1700000000%Z) [] old_files)
    as [fs' [evs|]] eqn:Hrun; [|vm_compute in Hrun; discriminate].
  exists fs', evs. split; [done|].
  destruct (main_files_written (uni := ascii_unicode) (dates := iso_dates)
    (parser := rides_pages) (browser := site_browser rides_site)
    (cal := uid_lines) (λ _, 1700000000%Z) [] old_files fs' evs Hrun)
    as (p & Hp & _ & _ & Hurls & _).
  vm_compute in Hp. injection Hp as <-.
  etrans; [exact Hurls|]. vm_compute. reflexivity.
Defined.



(** ** Further properties of [unique] and of the builder *)

Lemma unique_from_union `{Countable A} (s1 s2 : gset A) (l : list A) :
  unique_from (s1 ∪ s2) l = filter (λ x, x ∉ s1) (unique_from s2 l).
Proof.
  revert s2. induction l as [|x l IH]; intros s2; simpl; [done|].
  destruct (decide (x ∈ s2)) as [H2|H2].
  - rewrite decide_True by (apply elem_of_union; by right). apply IH.
  - destruct (decide (x ∈ s1)) as [H1|H1].
    + rewrite decide_True by (apply elem_of_union; by left).
      rewrite filter_cons_False by (by intros []).
      rewrite <-IH. f_equal. apply set_eq. intros y.
      rewrite !elem_of_union, elem_of_singleton.
      split; [tauto|]. intros [?|[->|?]]; tauto.
    + rewrite decide_False by (rewrite elem_of_union; tauto).
      rewrite filter_cons_True by done. f_equal.
      rewrite <-IH. f_equal. apply set_eq. intros y.
      rewrite !elem_of_union, elem_of_singleton. tauto.
Qed.

Lemma unique_from_app `{Countable A} (seen : gset A) (l1 l2 : list A) :
  unique_from seen (l1 ++ l2)
  = unique_from seen l1 ++ unique_from (list_to_set l1 ∪ seen) l2.
Proof.
  revert seen. induction l1 as [|x l1 IH]; intros seen; simpl.
  - by rewrite (left_id_L ∅ (∪)).
  - destruct (decide (x ∈ seen)) as [Hx|Hx].
    + rewrite IH. do 2 f_equal. apply set_eq. intros y.
      rewrite !elem_of_union, elem_of_singleton.
      split; [tauto|]. intros [[->|?]|?]; tauto.
    + simpl. rewrite IH. do 3 f_equal. apply set_eq. intros y.
      rewrite !elem_of_union, elem_of_singleton. tauto.
Qed.

Lemma unique_from_sublist `{Countable A} (seen : gset A) (l : list A) :
  unique_from seen l `sublist_of` l.
Proof.
  revert seen. induction l as [|x l IH]; intros seen; simpl; [done|].
  destruct (decide (x ∈ seen)); [by apply sublist_cons|by apply sublist_skip].
Qed.

(** X19. [unique] keeps the order of the sequence, and on two sequences
    put end to end it gives the first filtered, then what the second adds:
    the elements of the second filtered that are not in the first. *)
Theorem unique_app `{Countable A} (l1 l2 : list A) :
  unique l1 `sublist_of` l1 ∧
  unique (l1 ++ l2) = unique l1 ++ filter (λ x, x ∉ l1) (unique l2).
Proof.
  split.
  - apply unique_from_sublist.
  - unfold unique. rewrite unique_from_app, unique_from_union. f_equal.
    apply list_filter_iff. intros x. by rewrite elem_of_list_to_set.
Qed.

(** X20. When the builder does not raise, the event it adds for a record
    has the title of the record as its name, and carries the address, the
    description and the location of the record exactly when they are not
    empty: an empty location, which the parser can return, is left out like
    an unset one. *)
Theorem build_ics_fields {dates : DateLibs} (clock : nat → Z)
    (events : list EventRecord) (evs : list Event) (i : nat)
    (e : EventRecord) :
  build_ics clock events = Some evs →
  events !! i = Some e →
  ∃ ev, evs !! i = Some ev ∧
    name ev = title e ∧
    (∀ t, ev_url ev = Some t ↔ url e = Some t ∧ t ≠ []) ∧
    (∀ t, ev_description ev = Some t ↔ description e = t ∧ t ≠ []) ∧
    (∀ t, ev_location ev = Some t ↔ location e = Some t ∧ t ≠ []).
Proof.
  assert (Hset : ∀ o t, when_set o = Some t ↔ o = Some t ∧ t ≠ []).
  { intros o t. unfold when_set, truthy.
    destruct o as [[|c s]|]; simpl; split.
    - done.
    - by intros [[= <-] ?].
    - by intros [= <-].
    - by intros [? _].
    - done.
    - by intros [[=] _]. }
  intros Hb He.
  destruct (build_ics_lookup _ _ _ _ _ Hb He) as (ev & Hev & Hbuilt).
  apply build_event_Some in Hbuilt
    as (Hname & _ & _ & Hurl & Hdesc & Hloc & _).
  exists ev. rewrite Hurl, Hdesc, Hloc. split_and!; [done|done|..].
  - intros t. apply Hset.
  - intros t. rewrite Hset. split; [by intros [[= ->] ?]|by intros [-> ?]].
  - intros t. apply Hset.
Qed.

Lemma build_ics_fields_where_empty :
  ∃ evs ev,
    build_ics (dates := iso_dates) (λ _, 0%Z)
      [parse_soup (uni := ascii_unicode) (dates := iso_dates)
         soup_where_empty] = Some evs ∧
    evs !! 0 = Some ev ∧
    location (parse_soup (uni := ascii_unicode) (dates := iso_dates)
                soup_where_empty) = Some [] ∧
    ev_location ev = None.
Proof.
  destruct (build_ics (dates := iso_dates) (λ _, 0%Z)
    [parse_soup (uni := ascii_unicode) (dates := iso_dates) soup_where_empty])
    as [evs|] eqn:Hb; [|vm_compute in Hb; discriminate].
  destruct (build_ics_fields (dates := iso_dates) (λ _, 0%Z)
    [parse_soup (uni := ascii_unicode) (dates := iso_dates) soup_where_empty]
    evs 0 _ Hb eq_refl) as (ev & Hev & _ & _ & _ & Hloc).
  exists evs, ev. split_and!; [done|done|reflexivity|].
  assert (Hno : ∀ t, ev_location ev ≠ Some t).
  { intros t Ht. apply Hloc in Ht as [Ht Hne].
    vm_compute in Ht. by injection Ht as <-. }
  destruct (ev_location ev) as [t|]; [by destruct (Hno t)|done].
Defined.

(** X21. A listing without event links: the run visits no page and, when
    the listing loaded, writes an empty calendar over the old one and
    removes the list of addresses, while the list of identifiers of an
    earlier run stays as it was. *)
Theorem main_files_no_links {uni : Unicode} {dates : DateLibs}
    {parser : Html} {browser : Browser} {cal : CalendarText}
    (clock : nat → Z) (page p : Page) (fs : gmap str str) :
  goto EVENTS_URL page = Some p →
  finditer events_pattern
    (content (mouse_wheel (mouse_wheel (mouse_wheel p)))) = [] →
  main clock page = Some [] ∧
  ∃ fs', main_files clock page fs = (fs', Some []) ∧
    fs' !! ics_path = Some (calendar_text []) ∧
    fs' !! urls_path = None ∧
    fs' !! ids_path = fs !! ids_path.
Proof.
  intros Hp Hnone.
  assert (Hws : working_set p = []).
  { unfold working_set, extract_event_ids. by rewrite Hnone. }
  assert (Hrun : main_files clock page fs
    = (create_index index_path
         (write_file ics_path (calendar_text []) (remove_file urls_path fs)),
       Some [])).
  { rewrite (main_files_unfold _ _ p) by done. by rewrite Hws. }
  split.
  - by rewrite <-(main_files_main clock page fs), Hrun.
  - eexists. split; [exact Hrun|].
    destruct (main_files_success clock page fs _ _ Hrun)
      as (p' & Hp' & Hics & _ & Hurls & Hids & _).
    rewrite Hp in Hp'. injection Hp' as <-. rewrite Hws in Hurls, Hids.
    by split_and!.
Qed.

Lemma main_files_no_links_quiet :
  ∃ fs',
    main_files (uni := ascii_unicode) (dates := iso_dates)
      (parser := rides_pages) (browser := site_browser quiet_site)
      (cal := uid_lines) (λ _, 1700000000%Z) [] old_files = (fs', Some []) ∧
    fs' !! ics_path = Some [] ∧
    fs' !! urls_path = None ∧
    fs' !! ids_path = Some (codes "9").
Proof.
  destruct (main_files_no_links (uni := ascii_unicode) (dates := iso_dates)
    (parser := rides_pages) (browser := site_browser quiet_site)
    (cal := uid_lines) (λ _, 1700000000%Z) []
    (codes "<html><body>No upcoming events</body></html>") old_files)
    as (_ & fs' & Hrun & Hics & Hurls & Hids);
    [reflexivity|vm_compute; reflexivity|].
  exists fs'. split_and!; [done|done|done|].
  etrans; [exact Hids|]. vm_compute. reflexivity.
Defined.
